(** * SIL type handles and the persistent parser state

    A shallow embedding of [include/swift/SIL/SILType.h] and
    [include/swift/Parse/PersistentParserState.h], and the properties of the
    two classes that their specification states.

    - [PointerIntPair]: the tagged pointer word the handle is stored in.
    - [AST]: the type nodes the handle points to, as far as the inline code
      of [SILType.h] looks at them.
    - [SIL]: the class [SILType].
    - [Parse]: the class [PersistentParserState]. *)

From Stdlib Require Import ZArith Lia Bool List.
Import ListNotations.
Local Open Scope Z_scope.

(** ** A small error monad

    [None] stands for a failed [assert] or for the dereference of a pointer
    that points to no node (the null pointer in particular). *)

Definition obind {A B : Type} (c : option A) (k : A -> option B) : option B :=
  match c with
  | Some a => k a
  | None => None
  end.

Notation "x <- c ;; k" := (obind c (fun x => k))
  (at level 61, c at next level, right associativity).

(** ** The tagged pointer word *)

Module PointerIntPair.

Section Layout.

(** Width of [uintptr_t] in bits. *)
Variable PtrBits : Z.

(** [PointerLikeTypeTraits<TypeBase *>::NumLowBitsAvailable]: the number of
    low bits of a [TypeBase *] that are zero by alignment. *)
Variable NumLowBitsAvailable : Z.

(** Truncation of an integer to a machine word. *)
Definition uintptr (x : Z) : Z := Z.land x (Z.ones PtrBits).

(** Modelled from the spec: [llvm::PointerIntPair<TypeBase *, 2, unsigned>]
    ([llvm/ADT/PointerIntPair.h] is not among the sources).  The handle is
    one machine pointer wide; the low bits of the pointer that alignment
    leaves free hold the value category, which takes two bits, and the
    remaining bits are the CanonicalType pointer. *)
Definition IntBits : Z := 2.

(** Modelled from the spec: the bits of the word that hold the pointer,
    all but the [NumLowBitsAvailable] low ones. *)
Definition PointerBitMask : Z :=
  uintptr (Z.lnot (Z.shiftl 1 NumLowBitsAvailable - 1)).

(** Modelled from the spec: the position of the category in the word.  The
    two bits are the topmost free bits; with exactly two free bits they are
    the low two bits of the word, and with more the lowest bits stay free
    for an enclosing tagged union, which [PointerLikeTypeTraits<SILType>]
    advertises. *)
Definition IntShift : Z := NumLowBitsAvailable - IntBits.

Definition IntMask : Z := uintptr (Z.shiftl 1 IntBits - 1).

Definition ShiftedIntMask : Z := uintptr (Z.shiftl IntMask IntShift).

(** Modelled from the spec: the pointer of the pair, the word with the low
    bits masked off. *)
Definition getPointer (Value : Z) : Z := Z.land Value PointerBitMask.

(** Modelled from the spec: the integer of the pair, the two category
    bits. *)
Definition getInt (Value : Z) : Z := Z.land (Z.shiftr Value IntShift) IntMask.

(** Modelled from the spec: storing a pointer; it must be aligned, that is,
    have its low bits clear (an assertion). *)
Definition updatePointer (OrigValue PtrWord : Z) : option Z :=
  if Z.land PtrWord (uintptr (Z.lnot PointerBitMask)) =? 0
  then Some (Z.lor PtrWord (Z.land OrigValue (uintptr (Z.lnot PointerBitMask))))
  else None.

(** Modelled from the spec: storing the integer; it must fit the two bits
    (an assertion). *)
Definition updateInt (OrigValue IntWord : Z) : option Z :=
  if Z.land IntWord (uintptr (Z.lnot IntMask)) =? 0
  then Some (Z.lor (Z.land OrigValue (uintptr (Z.lnot ShiftedIntMask)))
                   (uintptr (Z.shiftl IntWord IntShift)))
  else None.

(** Modelled from the spec: the pair of a pointer and an integer,
    [PointerIntPair(PtrVal, IntVal)]. *)
Definition make (PtrVal IntVal : Z) : option Z :=
  v <- updatePointer 0 PtrVal ;; updateInt v IntVal.

(** Modelled from the spec: the default pair [PointerIntPair()], the zero
    word: a null pointer. *)
Definition empty : Z := 0.

End Layout.

End PointerIntPair.

(** ** Type nodes *)

Module AST.

(** A [CanType] is a [TypeBase *]; the null pointer is "no type". *)
Definition CanType : Type := Z.

Definition null : CanType := 0.

(** [SILFunctionType::Representation]. *)
Inductive SILFunctionTypeRepresentation : Type :=
| Thick
| Block
| Thin
| CFunctionPointer
| Method
| ObjCMethod
| WitnessMethod
| Closure.

Definition Representation_eqb (a b : SILFunctionTypeRepresentation) : bool :=
  match a, b with
  | Thick, Thick | Block, Block | Thin, Thin
  | CFunctionPointer, CFunctionPointer | Method, Method
  | ObjCMethod, ObjCMethod | WitnessMethod, WitnessMethod
  | Closure, Closure => true
  | _, _ => false
  end.

(** Modelled from the spec: the canonical type nodes ([swift/AST/Types.h] is
    not among the sources), a closed family of node variants.  Only the
    variants that the inline code of [SILType.h] tells apart are named: a SIL
    function type with its representation, [Optional<T>] with its payload
    type, a metatype with its instance type, and a class (or bound generic
    class) type with its [ClassDecl *]; every other node is [OtherType]. *)
Inductive TypeBase : Type :=
| SILFunctionType (Rep : SILFunctionTypeRepresentation)
| OptionalType (T : CanType)
| AnyMetatypeType (InstanceType : CanType)
| ClassType (Decl : Z)
| OtherType (id : Z).

(** The arena the type nodes live in, with the queries of [TypeBase] and
    [CanType] that [SILType.h] forwards to.  [deref p] is the node at address
    [p], if there is one; a query is an oracle on the address of a node. *)
Record TypeArena : Type := {
  deref : CanType -> option TypeBase;
  isLegalSILType : CanType -> bool;
  isVoid : CanType -> bool;
  isAnyObject : CanType -> bool;
  hasReferenceSemantics : CanType -> bool;
  isAnyClassReferenceType : CanType -> bool;
  hasRetainablePointerRepresentation : CanType -> bool;
  isExistentialType : CanType -> bool;
  isAnyExistentialType : CanType -> bool;
  isClassExistentialType : CanType -> bool;
  isOpenedExistential : CanType -> bool;
  hasOpenedExistential : CanType -> bool;
  hasTypeParameter : CanType -> bool;
  hasArchetype : CanType -> bool;
  isBridgeableObjectType : CanType -> bool
}.

Section Arena.

Variable A : TypeArena.

(** [ty->query()]: the pointer is dereferenced. *)
Definition call (query : CanType -> bool) (ty : CanType) : option bool :=
  _ <- deref A ty ;; Some (query ty).

(** [ty->getClassOrBoundGenericClass()]; a null [ClassDecl *] when the type
    is no class. *)
Definition getClassOrBoundGenericClass (ty : CanType) : option Z :=
  node <- deref A ty ;;
  Some (match node with
        | ClassType Decl => Decl
        | _ => 0
        end).

(** [dyn_cast<SILFunctionType>(ty)], and the representation of the result;
    the inner [None] is the null result of a failed cast. *)
Definition getAs_SILFunctionType (ty : CanType)
  : option (option SILFunctionTypeRepresentation) :=
  node <- deref A ty ;;
  Some (match node with
        | SILFunctionType Rep => Some Rep
        | _ => None
        end).

End Arena.

End AST.

(** ** The class [SILType] *)

Module SIL.

Import AST.

(** [enum class SILValueCategory : uint8_t]. *)
Inductive SILValueCategory : Type :=
| Object
| Address.

(** [unsigned(category)]. *)
Definition unsigned (category : SILValueCategory) : Z :=
  match category with
  | Object => 0
  | Address => 1
  end.

(** [SILValueCategory(i)] for the two-bit integer read back from the word;
    a bit pattern that names no enumerator gives [None]. *)
Definition SILValueCategory_of (i : Z) : option SILValueCategory :=
  match i with
  | 0 => Some Object
  | 1 => Some Address
  | _ => None
  end.

Definition SILValueCategory_eqb (a b : SILValueCategory) : bool :=
  match a, b with
  | Object, Object | Address, Address => true
  | _, _ => false
  end.

(** [class SILType { ValueType value; }]. *)
Record SILType : Type := { value : Z }.

(** [ResilienceExpansion], of which [SILType.h] names [Minimal]. *)
Inductive ResilienceExpansion : Type :=
| Minimal
| Maximal.

Section Handle.

Variables PtrBits NumLowBitsAvailable : Z.
Variable A : TypeArena.

(** The private constructor [SILType(CanType ty, SILValueCategory category)]:
    the word is built first, then a non-null [ty] must be a legal SIL type. *)
Definition SILType_new (ty : CanType) (category : SILValueCategory)
  : option SILType :=
  v <- PointerIntPair.make PtrBits NumLowBitsAvailable ty (unsigned category) ;;
  if ty =? null then Some {| value := v |}
  else
    legal <- call A (isLegalSILType A) ty ;;
    if legal then Some {| value := v |} else None.

(** [SILType() = default]. *)
Definition SILType_default : SILType := {| value := PointerIntPair.empty |}.

Definition getPrimitiveType (T : CanType) (category : SILValueCategory)
  : option SILType :=
  SILType_new T category.

Definition getPrimitiveObjectType (T : CanType) : option SILType :=
  SILType_new T Object.

Definition getPrimitiveAddressType (T : CanType) : option SILType :=
  SILType_new T Address.

Definition isNull (h : SILType) : bool :=
  PointerIntPair.getPointer PtrBits NumLowBitsAvailable (value h) =? null.

(** [explicit operator bool() const]. *)
Definition operator_bool (h : SILType) : bool :=
  negb (PointerIntPair.getPointer PtrBits NumLowBitsAvailable (value h) =? null).

Definition getCategory (h : SILType) : option SILValueCategory :=
  SILValueCategory_of
    (PointerIntPair.getInt PtrBits NumLowBitsAvailable (value h)).

Definition getASTType (h : SILType) : CanType :=
  PointerIntPair.getPointer PtrBits NumLowBitsAvailable (value h).

Definition getCategoryType (h : SILType) (Category : SILValueCategory)
  : option SILType :=
  SILType_new (getASTType h) Category.

Definition copyCategory (h Ty : SILType) : option SILType :=
  c <- getCategory Ty ;; getCategoryType h c.

Definition getAddressType (h : SILType) : option SILType :=
  SILType_new (getASTType h) Address.

Definition getObjectType (h : SILType) : option SILType :=
  SILType_new (getASTType h) Object.

Definition isAddress (h : SILType) : bool :=
  match getCategory h with
  | Some Address => true
  | _ => false
  end.

Definition isObject (h : SILType) : bool :=
  match getCategory h with
  | Some Object => true
  | _ => false
  end.

(** *** Pointer-like utilities and equality *)

Definition getFromOpaqueValue (P : Z) : SILType := {| value := P |}.

Definition getOpaqueValue (h : SILType) : Z := value h.

(** [operator==]. *)
Definition operator_eq (h rhs : SILType) : bool :=
  getOpaqueValue h =? getOpaqueValue rhs.

(** [operator!=]. *)
Definition operator_ne (h rhs : SILType) : bool :=
  negb (getOpaqueValue h =? getOpaqueValue rhs).

(** *** Structural predicates *)

Definition isVoid (h : SILType) : option bool :=
  call A (AST.isVoid A)
       (PointerIntPair.getPointer PtrBits NumLowBitsAvailable (value h)).

Definition hasReferenceSemantics (h : SILType) : option bool :=
  call A (AST.hasReferenceSemantics A) (getASTType h).

Definition isAnyClassReferenceType (h : SILType) : option bool :=
  call A (AST.isAnyClassReferenceType A) (getASTType h).

Definition hasRetainablePointerRepresentation (h : SILType) : option bool :=
  call A (AST.hasRetainablePointerRepresentation A) (getASTType h).

Definition isExistentialType (h : SILType) : option bool :=
  call A (AST.isExistentialType A) (getASTType h).

Definition isAnyExistentialType (h : SILType) : option bool :=
  call A (AST.isAnyExistentialType A) (getASTType h).

Definition isClassExistentialType (h : SILType) : option bool :=
  call A (AST.isClassExistentialType A) (getASTType h).

Definition isOpenedExistential (h : SILType) : option bool :=
  call A (AST.isOpenedExistential A) (getASTType h).

Definition hasOpenedExistential (h : SILType) : option bool :=
  call A (AST.hasOpenedExistential A) (getASTType h).

Definition hasTypeParameter (h : SILType) : option bool :=
  call A (AST.hasTypeParameter A) (getASTType h).

Definition isBridgeableObjectType (h : SILType) : option bool :=
  call A (AST.isBridgeableObjectType A) (getASTType h).

Definition hasArchetype (h : SILType) : option bool :=
  call A (AST.hasArchetype A) (getASTType h).

Definition isAnyObject (h : SILType) : option bool :=
  call A (AST.isAnyObject A) (getASTType h).

(** [static bool isClassOrClassMetatype(Type t)]. *)
Definition isClassOrClassMetatype_of (t : CanType) : option bool :=
  node <- deref A t ;;
  match node with
  | AnyMetatypeType InstanceType =>
      Decl <- getClassOrBoundGenericClass A InstanceType ;;
      Some (negb (Decl =? 0))
  | _ =>
      Decl <- getClassOrBoundGenericClass A t ;;
      Some (negb (Decl =? 0))
  end.

(** [bool isClassOrClassMetatype()]; [&&] does not evaluate its right
    operand when [isObject()] is false. *)
Definition isClassOrClassMetatype (h : SILType) : option bool :=
  if isObject h then isClassOrClassMetatype_of (getASTType h) else Some false.

(** [getAs<SILFunctionType>()]. *)
Definition getAs_SILFunctionType (h : SILType)
  : option (option SILFunctionTypeRepresentation) :=
  AST.getAs_SILFunctionType A (getASTType h).

(** *** Block pointers *)

(** [SILType::getOptionalObjectType] is declared in [SILType.h] and defined
    out of line; it is taken as a parameter that meets its documentation. *)
Variable getOptionalObjectType : SILType -> option SILType.

Definition isBlockPointerCompatible (h : SILType) : option bool :=
  optPayload <- getOptionalObjectType h ;;
  let ty := if operator_bool optPayload then optPayload else h in
  fTy <- getAs_SILFunctionType ty ;;
  match fTy with
  | None => Some false
  | Some Rep => Some (Representation_eqb Rep Block)
  end.

(** "Returns the lowered type for T if this type is Optional<T>; otherwise,
    return the null type." *)
Definition getOptionalObjectType_documented : Prop :=
  forall (h : SILType) (node : TypeBase),
    deref A (getASTType h) = Some node ->
    exists r, getOptionalObjectType h = Some r /\
      match node with
      | OptionalType T => getASTType r = T
      | _ => isNull r = true
      end.

(** One function that meets the documentation: the handle of the payload
    type with the category of the receiver, and the default handle for a
    type that is no optional. *)
Definition getOptionalObjectType_plain (h : SILType) : option SILType :=
  node <- deref A (getASTType h) ;;
  match node with
  | OptionalType T =>
      v <- PointerIntPair.make PtrBits NumLowBitsAvailable T
             (PointerIntPair.getInt PtrBits NumLowBitsAvailable (value h)) ;;
      Some {| value := v |}
  | _ => Some SILType_default
  end.

(** *** Lowering-sensitive predicates *)

(** [bool isAddressOnly(const SILFunction &F) const] is declared in
    [SILType.h] and defined out of line: a parameter. *)
Variable SILFunction : Type.
Variable isAddressOnly : SILType -> SILFunction -> bool.

Definition isLoadable (h : SILType) (F : SILFunction) : bool :=
  negb (isAddressOnly h F).

(** [static bool isAddressOnly(CanType, TypeConverter &, CanGenericSignature,
    ResilienceExpansion)] is declared only as well; the type converter is
    passed by mutable reference, so the oracle returns the converter it
    leaves behind together with its answer. *)
Variable TypeConverter : Type.
Variable CanGenericSignature : Type.
Variable isAddressOnly_lowered :
  CanType -> TypeConverter -> CanGenericSignature -> ResilienceExpansion ->
  bool * TypeConverter.

Definition isFormallyReturnedIndirectly
  (type : CanType) (tc : TypeConverter) (sig : CanGenericSignature)
  : bool * TypeConverter :=
  isAddressOnly_lowered type tc sig Minimal.

Definition isFormallyPassedIndirectly
  (type : CanType) (tc : TypeConverter) (sig : CanGenericSignature)
  : bool * TypeConverter :=
  isAddressOnly_lowered type tc sig Minimal.

End Handle.

(** *** Well-formed arenas and handles *)

(** A [TypeBase *] that points to a node is a non-null machine word with
    [NumLowBitsAvailable] zero low bits. *)
Definition aligned (PtrBits NumLowBitsAvailable : Z) (p : Z) : Prop :=
  0 <= p < 2 ^ PtrBits /\ Z.land p (Z.ones NumLowBitsAvailable) = 0.

(** The payload of an optional and the instance type of a metatype are
    nodes of the arena. *)
Definition children_live (A : TypeArena) (node : TypeBase) : Prop :=
  match node with
  | OptionalType T => deref A T <> None
  | AnyMetatypeType InstanceType => deref A InstanceType <> None
  | _ => True
  end.

Record arena_ok (PtrBits NumLowBitsAvailable : Z) (A : TypeArena) : Prop := {
  layout_ok : 2 <= NumLowBitsAvailable <= PtrBits;
  deref_null : deref A null = None;
  deref_aligned :
    forall p node, deref A p = Some node -> aligned PtrBits NumLowBitsAvailable p;
  deref_closed :
    forall p node, deref A p = Some node -> children_live A node
}.

(** A CanonicalType from which a handle may be built: the null type, or a
    node of the arena that is a legal SIL type. *)
Definition lowered (A : TypeArena) (t : CanType) : Prop :=
  t = null \/ (deref A t <> None /\ isLegalSILType A t = true).

(** The handles that the class hands out: the ones its constructor builds. *)
Definition is_handle (PtrBits NumLowBitsAvailable : Z) (A : TypeArena)
  (h : SILType) : Prop :=
  exists t c, SILType_new PtrBits NumLowBitsAvailable A t c = Some h.

(** The word of a handle of type [t] and category [c], in closed form: the
    pointer with the category in the two topmost free bits. *)
Definition encoded (NumLowBitsAvailable : Z) (t : CanType)
  (c : SILValueCategory) : SILType :=
  {| value := Z.lor t (Z.shiftl (unsigned c) (NumLowBitsAvailable - 2)) |}.

(** *** The other inline members *)

Section Members.

Variables PtrBits NumLowBitsAvailable : Z.
Variable A : TypeArena.

(** [is<SILFunctionType>()]: [isa] on the AST type. *)
Definition is_SILFunctionType (h : SILType) : option bool :=
  node <- deref A (getASTType PtrBits NumLowBitsAvailable h) ;;
  Some (match node with
        | SILFunctionType _ => true
        | _ => false
        end).

(** [castTo<SILFunctionType>()]: [cast] asserts that the type is of the
    class asked for. *)
Definition castTo_SILFunctionType (h : SILType)
  : option SILFunctionTypeRepresentation :=
  node <- deref A (getASTType PtrBits NumLowBitsAvailable h) ;;
  match node with
  | SILFunctionType Rep => Some Rep
  | _ => None
  end.

Definition getFunctionRepresentation (h : SILType)
  : option SILFunctionTypeRepresentation :=
  castTo_SILFunctionType h.

(** The member [getClassOrBoundGenericClass()]. *)
Definition getClassOrBoundGenericClass (h : SILType) : option Z :=
  AST.getClassOrBoundGenericClass A (getASTType PtrBits NumLowBitsAvailable h).

(** The queries of the AST that the members below forward to, which
    [SILType.h] only calls: [TypeBase::getSuperclass] (a [Type], null when
    there is none) and [TypeBase::getCanonicalType],
    [CanType::getReferenceStorageReferent], the element types of a
    [TupleType] (no list for a type that is no tuple), and the two
    superclass tests. *)
Variable TypeBase_getSuperclass : CanType -> Z.
Variable TypeBase_getCanonicalType : Z -> CanType.
Variable CanType_getReferenceStorageReferent : CanType -> CanType.
Variable TupleType_getElementTypes : CanType -> option (list CanType).
Variable TypeBase_isExactSuperclassOf : CanType -> CanType -> bool.
Variable TypeBase_isBindableToSuperclassOf : CanType -> CanType -> bool.

(** [castTo<TupleType>()] asserts that the type is a tuple, and indexing the
    elements asserts that the index is in bounds. *)
Definition getTupleElementType (h : SILType) (index : nat) : option SILType :=
  _ <- deref A (getASTType PtrBits NumLowBitsAvailable h) ;;
  elements <- TupleType_getElementTypes (getASTType PtrBits NumLowBitsAvailable h) ;;
  element <- nth_error elements index ;;
  category <- getCategory PtrBits NumLowBitsAvailable h ;;
  SILType_new PtrBits NumLowBitsAvailable A element category.

Definition getSuperclass (h : SILType) : option SILType :=
  _ <- deref A (getASTType PtrBits NumLowBitsAvailable h) ;;
  let superclass :=
    TypeBase_getSuperclass (getASTType PtrBits NumLowBitsAvailable h) in
  if superclass =? 0 then Some SILType_default
  else getPrimitiveObjectType PtrBits NumLowBitsAvailable A
         (TypeBase_getCanonicalType superclass).

Definition isExactSuperclassOf (h Ty : SILType) : option bool :=
  _ <- deref A (getASTType PtrBits NumLowBitsAvailable h) ;;
  Some (TypeBase_isExactSuperclassOf
          (getASTType PtrBits NumLowBitsAvailable h)
          (getASTType PtrBits NumLowBitsAvailable Ty)).

Definition isBindableToSuperclassOf (h Ty : SILType) : option bool :=
  _ <- deref A (getASTType PtrBits NumLowBitsAvailable h) ;;
  Some (TypeBase_isBindableToSuperclassOf
          (getASTType PtrBits NumLowBitsAvailable h)
          (getASTType PtrBits NumLowBitsAvailable Ty)).

Definition getReferenceStorageReferentType (h : SILType) : option SILType :=
  _ <- deref A (getASTType PtrBits NumLowBitsAvailable h) ;;
  category <- getCategory PtrBits NumLowBitsAvailable h ;;
  SILType_new PtrBits NumLowBitsAvailable A
    (CanType_getReferenceStorageReferent
       (getASTType PtrBits NumLowBitsAvailable h))
    category.

(** *** Inline functions of other classes that build handles *)

(** [SILField::getLoweredType], [SILBlockStorageType::getCaptureType] and
    [getSILBoxFieldLoweredType] are declared elsewhere: parameters. *)
Variable SILField : Type.
Variable SILField_getLoweredType : SILField -> CanType.

Definition SILField_getAddressType (field : SILField) : option SILType :=
  getPrimitiveAddressType PtrBits NumLowBitsAvailable A
    (SILField_getLoweredType field).

Definition SILField_getObjectType (field : SILField) : option SILType :=
  getPrimitiveObjectType PtrBits NumLowBitsAvailable A
    (SILField_getLoweredType field).

Variable SILBlockStorageType : Type.
Variable SILBlockStorageType_getCaptureType : SILBlockStorageType -> CanType.

Definition SILBlockStorageType_getCaptureAddressType
  (type : SILBlockStorageType) : option SILType :=
  getPrimitiveAddressType PtrBits NumLowBitsAvailable A
    (SILBlockStorageType_getCaptureType type).

(** The type converter is passed by mutable reference: the lowered type
    comes with the converter that the query leaves behind. *)
Variable SILBoxType : Type.
Variable TypeConverter : Type.
Variable getSILBoxFieldLoweredType :
  SILBoxType -> TypeConverter -> nat -> CanType * TypeConverter.

Definition getSILBoxFieldType
  (type : SILBoxType) (TC : TypeConverter) (index : nat)
  : option SILType * TypeConverter :=
  let (lowered, TC') := getSILBoxFieldLoweredType type TC index in
  (getPrimitiveAddressType PtrBits NumLowBitsAvailable A lowered, TC').

(** *** [PointerLikeTypeTraits<SILType>] and [DenseMapInfo<SILType>] *)

Definition getAsVoidPointer (T : SILType) : Z := getOpaqueValue T.

Definition getFromVoidPointer (P : Z) : SILType := getFromOpaqueValue P.

(** Modelled from the spec: [NumLowBitsAvailable] of the pair, the trait
    that "advertises the low-bit availability so the STH may itself be
    packed inside larger tagged unions": the free low bits of the pointer
    that the category does not take. *)
Definition SILType_NumLowBitsAvailable : Z :=
  NumLowBitsAvailable - PointerIntPair.IntBits.

(** The sentinel keys of the [DenseMapInfo] of untyped pointers belong to
    LLVM: parameters. *)
Variable PointerMapInfo_getEmptyKey : Z.
Variable PointerMapInfo_getTombstoneKey : Z.

Definition getEmptyKey : SILType :=
  getFromOpaqueValue PointerMapInfo_getEmptyKey.

Definition getTombstoneKey : SILType :=
  getFromOpaqueValue PointerMapInfo_getTombstoneKey.

Definition isEqual (LHS RHS : SILType) : bool := operator_eq LHS RHS.

End Members.

End SIL.

(** ** A small arena

    Seven type nodes on a 64-bit target whose type nodes are 8-byte aligned:
    a block function type, [Optional] of it, [Optional] of that, a thick
    function type, a class, its metatype, and a builtin integer. *)

Module Demo.

Import AST.

Definition PtrBits : Z := 64.

Definition NumLowBitsAvailable : Z := 3.

Definition BlockFn : CanType := 8.
Definition OptionalBlockFn : CanType := 16.
Definition OptionalOptionalBlockFn : CanType := 24.
Definition ThickFn : CanType := 32.
Definition SomeClass : CanType := 40.
Definition SomeClassMetatype : CanType := 48.
Definition Int32 : CanType := 56.

Definition nodes : list (CanType * TypeBase) :=
  [ (BlockFn, SILFunctionType Block);
    (OptionalBlockFn, OptionalType BlockFn);
    (OptionalOptionalBlockFn, OptionalType OptionalBlockFn);
    (ThickFn, SILFunctionType Thick);
    (SomeClass, ClassType 4096);
    (SomeClassMetatype, AnyMetatypeType SomeClass);
    (Int32, OtherType 32) ].

Fixpoint lookup (l : list (CanType * TypeBase)) (p : CanType)
  : option TypeBase :=
  match l with
  | [] => None
  | (q, node) :: l' => if p =? q then Some node else lookup l' p
  end.

Definition arena : TypeArena :=
  {| deref := lookup nodes;
     isLegalSILType := fun _ => true;
     isVoid := fun _ => false;
     isAnyObject := fun _ => false;
     hasReferenceSemantics := fun p => (p =? BlockFn) || (p =? ThickFn) || (p =? SomeClass);
     isAnyClassReferenceType := fun p => p =? SomeClass;
     hasRetainablePointerRepresentation := fun p => (p =? BlockFn) || (p =? SomeClass);
     isExistentialType := fun _ => false;
     isAnyExistentialType := fun _ => false;
     isClassExistentialType := fun _ => false;
     isOpenedExistential := fun _ => false;
     hasOpenedExistential := fun _ => false;
     hasTypeParameter := fun _ => false;
     hasArchetype := fun _ => false;
     isBridgeableObjectType := fun p => p =? SomeClass |}.

(** Handles on these types: the word is the pointer, with the category in
    bits 1 and 2. *)
Definition Int32_object : SIL.SILType := {| SIL.value := 56 |}.
Definition Int32_address : SIL.SILType := {| SIL.value := 58 |}.
Definition SomeClass_object : SIL.SILType := {| SIL.value := 40 |}.
Definition SomeClass_address : SIL.SILType := {| SIL.value := 42 |}.
Definition BlockFn_object : SIL.SILType := {| SIL.value := 8 |}.
Definition OptionalBlockFn_object : SIL.SILType := {| SIL.value := 16 |}.
Definition OptionalOptionalBlockFn_object : SIL.SILType := {| SIL.value := 24 |}.
Definition ThickFn_object : SIL.SILType := {| SIL.value := 32 |}.
Definition null_object : SIL.SILType := {| SIL.value := 0 |}.
Definition null_address : SIL.SILType := {| SIL.value := 2 |}.

(** An [isAddressOnly] oracle on a one-function module: the class reference
    is loadable, everything else is address-only. *)
Definition isAddressOnly (h : SIL.SILType) (F : unit) : bool :=
  negb (SIL.getASTType PtrBits NumLowBitsAvailable h =? SomeClass).

(** A type converter that counts its queries. *)
Definition isAddressOnly_lowered
  (type : CanType) (tc : nat) (sig : unit) (expansion : SIL.ResilienceExpansion)
  : bool * nat :=
  (negb (type =? SomeClass), S tc).

End Demo.

(** ** The class [PersistentParserState] *)

Module Parse.

Set Implicit Arguments.

(** Modelled from the spec: [SourceLoc] ([swift/Basic/SourceLoc.h] is not
    among the sources), a source location that is either valid or the
    invalid sentinel; it is a pointer into the source buffer, the null
    pointer being the sentinel that a default-constructed location holds. *)
Record SourceLoc : Type := { Pointer : Z }.

Definition SourceLoc_default : SourceLoc := {| Pointer := 0 |}.

Definition SourceLoc_isValid (L : SourceLoc) : bool := negb (Pointer L =? 0).

Record SourceRange : Type := { Start : SourceLoc; End : SourceLoc }.

(** [struct ParserPos]. *)
Record ParserPos : Type := { Loc : SourceLoc; PrevLoc : SourceLoc }.

Definition ParserPos_isValid (P : ParserPos) : bool := SourceLoc_isValid (Loc P).

(** Modelled from the spec: [ParserPosition] ([swift/Parse/ParserPosition.h]
    is not among the sources), "a lightweight pair of source locations: the
    token start and the previous token's location", "valid iff loc is valid";
    the default-constructed position is the invalid sentinel. *)
Record ParserPosition : Type := { LS : SourceLoc; PreviousLoc : SourceLoc }.

Definition ParserPosition_default : ParserPosition :=
  {| LS := SourceLoc_default; PreviousLoc := SourceLoc_default |}.

Definition ParserPosition_isValid (P : ParserPosition) : bool :=
  SourceLoc_isValid (LS P).

Inductive DelayedDeclKind : Type :=
| TopLevelCodeDecl
| Decl
| FunctionBody.

Section State.

(** The collaborators' types: [SavedScope], [ScopeInfo], [TopLevelContext]. *)
Variables SavedScope ScopeInfoTy TopLevelContext : Type.

Record FunctionBodyState : Type := {
  FunctionBody_BodyPos : ParserPos;
  FunctionBody_Scope : SavedScope
}.

Definition FunctionBodyState_new
  (BodyRange : SourceRange) (PreviousLoc : SourceLoc) (Scope : SavedScope)
  : FunctionBodyState :=
  {| FunctionBody_BodyPos := {| Loc := Start BodyRange; PrevLoc := PreviousLoc |};
     FunctionBody_Scope := Scope |}.

Record DelayedDeclState : Type := {
  Kind : DelayedDeclKind;
  Flags : Z;
  ParentContext : Z;
  BodyPos : ParserPos;
  BodyEnd : SourceLoc;
  Scope : SavedScope
}.

Definition DelayedDeclState_new
  (Kind : DelayedDeclKind) (Flags : Z) (ParentContext : Z)
  (BodyRange : SourceRange) (PreviousLoc : SourceLoc) (Scope : SavedScope)
  : DelayedDeclState :=
  {| Kind := Kind; Flags := Flags; ParentContext := ParentContext;
     BodyPos := {| Loc := Start BodyRange; PrevLoc := PreviousLoc |};
     BodyEnd := End BodyRange; Scope := Scope |}.

(** The fields of the class, in the order of their declaration; a
    [std::unique_ptr] is an [option], the [DenseMap] an association list
    from [AbstractFunctionDecl *] to the state it owns. *)
Record PersistentParserState : Type := {
  InPoundLineEnvironment : bool;
  PerformConditionEvaluation : bool;
  ScopeInfo : ScopeInfoTy;
  DelayedFunctionBodies : list (Z * FunctionBodyState);
  MarkedPos : ParserPosition;
  CodeCompletionDelayedDeclState : option DelayedDeclState;
  DelayedDeclLists : list Z;
  TopLevelCode : TopLevelContext
}.

(** A member function that may write to the object: it returns its result
    and the object it leaves behind. *)
Definition Method (R : Type) : Type :=
  PersistentParserState -> R * PersistentParserState.

Definition hasDelayedDecl : Method bool :=
  fun this =>
    (match CodeCompletionDelayedDeclState this with
     | Some _ => true
     | None => false
     end, this).

(** The three getters dereference the pointer: no result on an empty slot. *)
Definition getDelayedDeclKind : Method (option DelayedDeclKind) :=
  fun this => (option_map Kind (CodeCompletionDelayedDeclState this), this).

Definition getDelayedDeclLoc : Method (option SourceLoc) :=
  fun this =>
    (option_map (fun d => Loc (BodyPos d)) (CodeCompletionDelayedDeclState this),
     this).

Definition getDelayedDeclContext : Method (option Z) :=
  fun this =>
    (option_map ParentContext (CodeCompletionDelayedDeclState this), this).

(** [return std::move(CodeCompletionDelayedDeclState);]: the result is
    move-constructed from the member, which is left null. *)
Definition takeDelayedDeclState : Method (option DelayedDeclState) :=
  fun this =>
    (CodeCompletionDelayedDeclState this,
     {| InPoundLineEnvironment := InPoundLineEnvironment this;
        PerformConditionEvaluation := PerformConditionEvaluation this;
        ScopeInfo := ScopeInfo this;
        DelayedFunctionBodies := DelayedFunctionBodies this;
        MarkedPos := MarkedPos this;
        CodeCompletionDelayedDeclState := None;
        DelayedDeclLists := DelayedDeclLists this;
        TopLevelCode := TopLevelCode this |}).

Definition markParserPosition (Pos : ParserPosition) (InPoundLineEnv : bool)
  : Method unit :=
  fun this =>
    (tt,
     {| InPoundLineEnvironment := InPoundLineEnv;
        PerformConditionEvaluation := PerformConditionEvaluation this;
        ScopeInfo := ScopeInfo this;
        DelayedFunctionBodies := DelayedFunctionBodies this;
        MarkedPos := Pos;
        CodeCompletionDelayedDeclState := CodeCompletionDelayedDeclState this;
        DelayedDeclLists := DelayedDeclLists this;
        TopLevelCode := TopLevelCode this |}).

Definition takeParserPosition : Method ParserPosition :=
  fun this =>
    (MarkedPos this,
     {| InPoundLineEnvironment := InPoundLineEnvironment this;
        PerformConditionEvaluation := PerformConditionEvaluation this;
        ScopeInfo := ScopeInfo this;
        DelayedFunctionBodies := DelayedFunctionBodies this;
        MarkedPos := ParserPosition_default;
        CodeCompletionDelayedDeclState := CodeCompletionDelayedDeclState this;
        DelayedDeclLists := DelayedDeclLists this;
        TopLevelCode := TopLevelCode this |}).

(** [getScopeInfo()] and [getTopLevelContext()] return a reference to a
    member.  The member function writes nothing: it gives the caller the
    member to read, and the caller may store to the member through the
    reference.  [getScopeInfo_store v] and [getTopLevelContext_store v] are
    the object after the caller has stored [v] through the reference. *)
Definition getScopeInfo : Method ScopeInfoTy :=
  fun this => (ScopeInfo this, this).

Definition getScopeInfo_store (v : ScopeInfoTy) (this : PersistentParserState)
  : PersistentParserState :=
  {| InPoundLineEnvironment := InPoundLineEnvironment this;
     PerformConditionEvaluation := PerformConditionEvaluation this;
     ScopeInfo := v;
     DelayedFunctionBodies := DelayedFunctionBodies this;
     MarkedPos := MarkedPos this;
     CodeCompletionDelayedDeclState := CodeCompletionDelayedDeclState this;
     DelayedDeclLists := DelayedDeclLists this;
     TopLevelCode := TopLevelCode this |}.

Definition getTopLevelContext : Method TopLevelContext :=
  fun this => (TopLevelCode this, this).

Definition getTopLevelContext_store
  (v : TopLevelContext) (this : PersistentParserState)
  : PersistentParserState :=
  {| InPoundLineEnvironment := InPoundLineEnvironment this;
     PerformConditionEvaluation := PerformConditionEvaluation this;
     ScopeInfo := ScopeInfo this;
     DelayedFunctionBodies := DelayedFunctionBodies this;
     MarkedPos := MarkedPos this;
     CodeCompletionDelayedDeclState := CodeCompletionDelayedDeclState this;
     DelayedDeclLists := DelayedDeclLists this;
     TopLevelCode := v |}.

(** *** Sequences of calls *)

(** The inline member functions, as the calls a parser makes.  A call of
    [getScopeInfo()] or [getTopLevelContext()] comes with what its caller
    does through the reference: having read [v], the caller stores [use v];
    [use] is the identity for a caller that only reads. *)
Inductive Call : Type :=
| HasDelayedDecl
| GetDelayedDeclKind
| GetDelayedDeclLoc
| GetDelayedDeclContext
| TakeDelayedDeclState
| MarkParserPosition (Pos : ParserPosition) (InPoundLineEnv : bool)
| TakeParserPosition
| GetScopeInfo (use : ScopeInfoTy -> ScopeInfoTy)
| GetTopLevelContext (use : TopLevelContext -> TopLevelContext).

(** The object after one call. *)
Definition after (c : Call) (this : PersistentParserState)
  : PersistentParserState :=
  match c with
  | HasDelayedDecl => snd (hasDelayedDecl this)
  | GetDelayedDeclKind => snd (getDelayedDeclKind this)
  | GetDelayedDeclLoc => snd (getDelayedDeclLoc this)
  | GetDelayedDeclContext => snd (getDelayedDeclContext this)
  | TakeDelayedDeclState => snd (takeDelayedDeclState this)
  | MarkParserPosition Pos b => snd (markParserPosition Pos b this)
  | TakeParserPosition => snd (takeParserPosition this)
  | GetScopeInfo use =>
      getScopeInfo_store (use (fst (getScopeInfo this)))
        (snd (getScopeInfo this))
  | GetTopLevelContext use =>
      getTopLevelContext_store (use (fst (getTopLevelContext this)))
        (snd (getTopLevelContext this))
  end.

(** The object after a sequence of calls, first call first. *)
Fixpoint run (cs : list Call) (this : PersistentParserState)
  : PersistentParserState :=
  match cs with
  | [] => this
  | c :: cs' => run cs' (after c this)
  end.

Definition is_mark (c : Call) : bool :=
  match c with
  | MarkParserPosition _ _ => true
  | _ => false
  end.

(** A sequence of calls none of which is [markParserPosition]. *)
Definition unmarked (cs : list Call) : Prop :=
  forallb (fun c => negb (is_mark c)) cs = true.

(** *** Calls that leave the marked position alone *)

Definition touches_position (c : Call) : bool :=
  match c with
  | MarkParserPosition _ _ => true
  | TakeParserPosition => true
  | _ => false
  end.

(** A sequence of calls none of which marks or takes the position. *)
Definition position_quiet (cs : list Call) : Prop :=
  forallb (fun c => negb (touches_position c)) cs = true.

End State.

Arguments HasDelayedDecl {ScopeInfoTy TopLevelContext}.
Arguments GetDelayedDeclKind {ScopeInfoTy TopLevelContext}.
Arguments GetDelayedDeclLoc {ScopeInfoTy TopLevelContext}.
Arguments GetDelayedDeclContext {ScopeInfoTy TopLevelContext}.
Arguments TakeDelayedDeclState {ScopeInfoTy TopLevelContext}.
Arguments MarkParserPosition {ScopeInfoTy TopLevelContext} Pos InPoundLineEnv.
Arguments TakeParserPosition {ScopeInfoTy TopLevelContext}.
Arguments GetScopeInfo {ScopeInfoTy TopLevelContext} use.
Arguments GetTopLevelContext {ScopeInfoTy TopLevelContext} use.

End Parse.

(** ** A parser state

    A parser that has delayed the body of one function for code completion
    and has stopped at a marked position inside a [#line] region. *)

Module ParseDemo.

Import Parse.

Definition body : SourceRange :=
  {| Start := {| Pointer := 100 |}; End := {| Pointer := 200 |} |}.

Definition delayed : DelayedDeclState unit :=
  DelayedDeclState_new FunctionBody 0 4096 body {| Pointer := 99 |} tt.

Definition marked : ParserPosition :=
  {| LS := {| Pointer := 150 |}; PreviousLoc := {| Pointer := 140 |} |}.

(** The scope info is the depth of the current scope and the top-level
    context the next closure discriminator. *)
Definition state : PersistentParserState unit nat nat :=
  {| InPoundLineEnvironment := true;
     PerformConditionEvaluation := true;
     ScopeInfo := 1%nat;
     DelayedFunctionBodies := [];
     MarkedPos := marked;
     CodeCompletionDelayedDeclState := Some delayed;
     DelayedDeclLists := [8192];
     TopLevelCode := 0%nat |}.

(** Calls that a parser can make one after the other on [state]: the
    getter comes while the declaration is pending. *)
Definition calls : list (Call nat nat) :=
  [ TakeParserPosition; HasDelayedDecl; GetDelayedDeclKind;
    GetScopeInfo S; TakeDelayedDeclState; TakeParserPosition ].

(** Calls that leave the declaration pending. *)
Definition early_calls : list (Call nat nat) :=
  [ TakeParserPosition; HasDelayedDecl; GetDelayedDeclLoc ].

(** Calls that neither mark nor take the position. *)
Definition quiet_calls : list (Call nat nat) :=
  [ HasDelayedDecl; GetScopeInfo S; TakeDelayedDeclState ].

(** Calls that a parser can make after the declaration was taken. *)
Definition later_calls : list (Call nat nat) :=
  [ HasDelayedDecl; GetTopLevelContext S; GetScopeInfo (fun v => v);
    TakeParserPosition ].

End ParseDemo.

(** ** A small class hierarchy

    A second arena on the same target: a base class, a class derived from
    it, the tuple of the derived class and an integer, the integer, and the
    weak reference storage of the derived class; with the answers of the
    queries that the other inline members forward to. *)

Module Hierarchy.

Import AST.

Definition PtrBits : Z := 64.

Definition NumLowBitsAvailable : Z := 3.

Definition Base : CanType := 8.
Definition Derived : CanType := 16.
Definition Pair : CanType := 24.
Definition Int64 : CanType := 32.
Definition WeakDerived : CanType := 40.

Definition nodes : list (CanType * TypeBase) :=
  [ (Base, ClassType 4096);
    (Derived, ClassType 4160);
    (Pair, OtherType 2);
    (Int64, OtherType 64);
    (WeakDerived, OtherType 3) ].

Definition arena : TypeArena :=
  {| deref := Demo.lookup nodes;
     isLegalSILType := fun _ => true;
     isVoid := fun _ => false;
     isAnyObject := fun _ => false;
     hasReferenceSemantics := fun p => (p =? Base) || (p =? Derived);
     isAnyClassReferenceType := fun p => (p =? Base) || (p =? Derived);
     hasRetainablePointerRepresentation := fun p => (p =? Base) || (p =? Derived);
     isExistentialType := fun _ => false;
     isAnyExistentialType := fun _ => false;
     isClassExistentialType := fun _ => false;
     isOpenedExistential := fun _ => false;
     hasOpenedExistential := fun _ => false;
     hasTypeParameter := fun _ => false;
     hasArchetype := fun _ => false;
     isBridgeableObjectType := fun p => (p =? Base) || (p =? Derived) |}.

(** The superclass of [Derived] is a sugared [Type] at 1008 whose canonical
    type is [Base]. *)
Definition getSuperclass (p : CanType) : Z :=
  if p =? Derived then 1008 else 0.

Definition getCanonicalType (ty : Z) : CanType :=
  if ty =? 1008 then Base else ty.

Definition getReferenceStorageReferent (p : CanType) : CanType :=
  if p =? WeakDerived then Derived else p.

Definition getElementTypes (p : CanType) : option (list CanType) :=
  if p =? Pair then Some [Derived; Int64] else None.

Definition isExactSuperclassOf (p q : CanType) : bool :=
  (p =? q) || ((p =? Base) && (q =? Derived)).

Definition Derived_object : SIL.SILType := {| SIL.value := 16 |}.
Definition Derived_address : SIL.SILType := {| SIL.value := 18 |}.
Definition Pair_address : SIL.SILType := {| SIL.value := 26 |}.
Definition WeakDerived_address : SIL.SILType := {| SIL.value := 42 |}.

(** The sentinel keys of LLVM's pointer map on this target. *)
Definition EmptyKey : Z := 2 ^ 64 - 4.
Definition TombstoneKey : Z := 2 ^ 64 - 8.

(** A box whose fields are the derived class and the integer, and a type
    converter that counts its queries. *)
Definition getSILBoxFieldLoweredType (type : unit) (TC : nat) (index : nat)
  : CanType * nat :=
  (nth index [Derived; Int64] null, S TC).

End Hierarchy.

(** * Properties *)

(** ** The tagged pointer word *)

Section PointerIntPairFacts.

Variables PtrBits NumLowBitsAvailable : Z.
Hypothesis layout : 2 <= NumLowBitsAvailable <= PtrBits.

Local Abbreviation N := NumLowBitsAvailable.
Local Abbreviation W := PtrBits.
Local Abbreviation aligned := (SIL.aligned PtrBits NumLowBitsAvailable).
Local Abbreviation getPointer := (PointerIntPair.getPointer PtrBits NumLowBitsAvailable).
Local Abbreviation getInt := (PointerIntPair.getInt PtrBits NumLowBitsAvailable).
Local Abbreviation make := (PointerIntPair.make PtrBits NumLowBitsAvailable).
Local Abbreviation uintptr := (PointerIntPair.uintptr PtrBits).

Lemma testbit_uintptr (x k : Z) :
  0 <= k -> Z.testbit (uintptr x) k = Z.testbit x k && (k <? W).
Proof.
  intros Hk. unfold PointerIntPair.uintptr.
  rewrite Z.land_spec, Z.testbit_ones_nonneg by lia. reflexivity.
Qed.

Lemma testbit_PointerBitMask (k : Z) :
  0 <= k ->
  Z.testbit (PointerIntPair.PointerBitMask W N) k = (N <=? k) && (k <? W).
Proof.
  intros Hk. unfold PointerIntPair.PointerBitMask.
  rewrite testbit_uintptr by lia.
  rewrite Z.sub_1_r. change (Z.pred (Z.shiftl 1 N)) with (Z.ones N).
  rewrite Z.lnot_spec, Z.testbit_ones_nonneg by lia.
  destruct (Z.ltb_spec k N), (Z.leb_spec N k); try lia; reflexivity.
Qed.

Lemma testbit_low_mask (k : Z) :
  0 <= k ->
  Z.testbit (uintptr (Z.lnot (PointerIntPair.PointerBitMask W N))) k = (k <? N).
Proof.
  intros Hk.
  rewrite testbit_uintptr, Z.lnot_spec, testbit_PointerBitMask by lia.
  destruct (Z.ltb_spec k N), (Z.leb_spec N k), (Z.ltb_spec k W);
    try lia; reflexivity.
Qed.

Lemma IntMask_eq : PointerIntPair.IntMask W = 3.
Proof.
  unfold PointerIntPair.IntMask, PointerIntPair.IntBits, PointerIntPair.uintptr.
  change (Z.shiftl 1 2 - 1) with (Z.ones 2).
  rewrite Z.land_ones by lia.
  change (Z.ones 2) with 3. apply Z.mod_small.
  assert (2 ^ 2 <= 2 ^ W) by (apply Z.pow_le_mono_r; lia).
  lia.
Qed.

Lemma testbit_3 (k : Z) : 0 <= k -> Z.testbit 3 k = (k <? 2).
Proof.
  intros Hk. change 3 with (Z.ones 2). apply Z.testbit_ones_nonneg; lia.
Qed.

Lemma testbit_ShiftedIntMask (k : Z) :
  0 <= k ->
  Z.testbit (PointerIntPair.ShiftedIntMask W N) k = (N - 2 <=? k) && (k <? N).
Proof.
  intros Hk.
  unfold PointerIntPair.ShiftedIntMask, PointerIntPair.IntShift,
    PointerIntPair.IntBits.
  rewrite testbit_uintptr, IntMask_eq, Z.shiftl_spec by lia.
  destruct (Z.leb_spec (N - 2) k).
  - rewrite testbit_3 by lia.
    destruct (Z.ltb_spec (k - (N - 2)) 2), (Z.ltb_spec k N), (Z.ltb_spec k W);
      try lia; reflexivity.
  - rewrite Z.testbit_neg_r by lia. reflexivity.
Qed.

Lemma aligned_low (p k : Z) : aligned p -> 0 <= k < N -> Z.testbit p k = false.
Proof.
  intros [_ Hp] Hk.
  assert (E : Z.testbit (Z.land p (Z.ones N)) k = false)
    by (rewrite Hp; apply Z.bits_0).
  rewrite Z.land_spec, Z.testbit_ones_nonneg in E by lia.
  destruct (Z.ltb_spec k N); try lia.
  now rewrite andb_true_r in E.
Qed.

Lemma word_high (p k : Z) : 0 <= p < 2 ^ W -> W <= k -> Z.testbit p k = false.
Proof.
  intros Hp Hk.
  rewrite <- (Z.mod_small p (2 ^ W)) by assumption.
  apply Z.mod_pow2_bits_high. lia.
Qed.

Lemma small_high (i k : Z) : 0 <= i < 4 -> 2 <= k -> Z.testbit i k = false.
Proof.
  intros Hi Hk.
  rewrite <- (Z.mod_small i (2 ^ 2)) by (change (2 ^ 2) with 4; lia).
  apply Z.mod_pow2_bits_high. lia.
Qed.

(** The word that the constructor of the pair builds. *)
Lemma make_eq (p i : Z) :
  aligned p -> 0 <= i < 4 ->
  make p i = Some (Z.lor p (Z.shiftl i (N - 2))).
Proof.
  intros Hp Hi. unfold PointerIntPair.make, PointerIntPair.updatePointer.
  assert (E1 : Z.land p (uintptr (Z.lnot (PointerIntPair.PointerBitMask W N))) = 0).
  { apply Z.bits_inj'. intros k Hk.
    rewrite Z.land_spec, testbit_low_mask, Z.bits_0 by lia.
    destruct (Z.ltb_spec k N).
    - rewrite (aligned_low p k) by (auto; lia). reflexivity.
    - apply andb_false_r. }
  rewrite E1. cbn [Z.eqb obind]. rewrite Z.land_0_l, Z.lor_0_r.
  unfold PointerIntPair.updateInt.
  assert (E2 : Z.land i (uintptr (Z.lnot (PointerIntPair.IntMask W))) = 0).
  { apply Z.bits_inj'. intros k Hk.
    rewrite Z.land_spec, testbit_uintptr, Z.lnot_spec, IntMask_eq, testbit_3,
      Z.bits_0 by lia.
    destruct (Z.ltb_spec k 2).
    - cbn. apply andb_false_r.
    - rewrite (small_high i k) by lia. reflexivity. }
  rewrite E2. cbn [Z.eqb]. f_equal.
  apply Z.bits_inj'. intros k Hk.
  unfold PointerIntPair.IntShift, PointerIntPair.IntBits.
  rewrite !Z.lor_spec, Z.land_spec, !testbit_uintptr, Z.lnot_spec,
    testbit_ShiftedIntMask by lia.
  destruct (Z.ltb_spec k W) as [HW | HW].
  - rewrite !andb_true_r.
    destruct (Z.leb_spec (N - 2) k), (Z.ltb_spec k N); cbn;
      rewrite ?andb_true_r, ?andb_false_r; try reflexivity.
    rewrite (aligned_low p k) by (auto; lia). reflexivity.
  - rewrite !andb_false_r, (word_high p k) by (try apply Hp; lia).
    cbn. rewrite Z.shiftl_spec by lia.
    rewrite (small_high i (k - (N - 2))) by lia. reflexivity.
Qed.

Lemma getPointer_lor (p i : Z) :
  aligned p -> 0 <= i < 4 ->
  getPointer (Z.lor p (Z.shiftl i (N - 2))) = p.
Proof.
  intros Hp Hi. unfold PointerIntPair.getPointer.
  apply Z.bits_inj'. intros k Hk.
  rewrite Z.land_spec, Z.lor_spec, testbit_PointerBitMask, Z.shiftl_spec by lia.
  destruct (Z.leb_spec N k), (Z.ltb_spec k W); cbn;
    rewrite ?andb_true_r, ?andb_false_r.
  - rewrite (small_high i (k - (N - 2))) by lia. apply orb_false_r.
  - symmetry. apply word_high; [apply Hp | lia].
  - symmetry. apply aligned_low; auto; lia.
  - symmetry. apply aligned_low; auto; lia.
Qed.

Lemma getInt_lor (p i : Z) :
  aligned p -> 0 <= i < 4 ->
  getInt (Z.lor p (Z.shiftl i (N - 2))) = i.
Proof.
  intros Hp Hi. unfold PointerIntPair.getInt.
  unfold PointerIntPair.IntShift, PointerIntPair.IntBits.
  rewrite IntMask_eq.
  apply Z.bits_inj'. intros k Hk.
  rewrite Z.land_spec, Z.shiftr_spec, Z.lor_spec, Z.shiftl_spec, testbit_3
    by lia.
  replace (k + (N - 2) - (N - 2)) with k by lia.
  destruct (Z.ltb_spec k 2).
  - rewrite (aligned_low p (k + (N - 2))) by (auto; lia).
    cbn. apply andb_true_r.
  - rewrite (small_high i k) by lia. apply andb_false_r.
Qed.

(** The pointer part of any word is aligned. *)
Lemma getPointer_aligned (v : Z) : aligned (getPointer v).
Proof.
  unfold PointerIntPair.getPointer, PointerIntPair.PointerBitMask,
    PointerIntPair.uintptr.
  split.
  - rewrite Z.land_assoc, Z.land_ones by lia.
    apply Z.mod_pos_bound. apply Z.pow_pos_nonneg; lia.
  - fold (uintptr (Z.lnot (Z.shiftl 1 N - 1))).
    fold (PointerIntPair.PointerBitMask W N).
    apply Z.bits_inj'. intros k Hk.
    rewrite !Z.land_spec, testbit_PointerBitMask, Z.testbit_ones_nonneg,
      Z.bits_0 by lia.
    destruct (Z.leb_spec N k), (Z.ltb_spec k N); try lia;
      cbn; rewrite ?andb_false_r; reflexivity.
Qed.

End PointerIntPairFacts.

(** ** Handles *)

Section HandleFacts.

Import AST SIL.

Variables PtrBits NumLowBitsAvailable : Z.
Variable A : TypeArena.
Hypothesis ok : arena_ok PtrBits NumLowBitsAvailable A.

Local Abbreviation N := NumLowBitsAvailable.
Local Abbreviation W := PtrBits.
Local Abbreviation SILType_new := (SIL.SILType_new PtrBits NumLowBitsAvailable A).
Local Abbreviation getASTType := (SIL.getASTType PtrBits NumLowBitsAvailable).
Local Abbreviation getCategory := (SIL.getCategory PtrBits NumLowBitsAvailable).
Local Abbreviation is_handle := (SIL.is_handle PtrBits NumLowBitsAvailable A).
Local Abbreviation encoded := (SIL.encoded NumLowBitsAvailable).

Lemma layout : 2 <= N <= W.
Proof. exact (layout_ok _ _ _ ok). Qed.

Lemma unsigned_range (c : SILValueCategory) : 0 <= unsigned c < 4.
Proof. destruct c; cbn; lia. Qed.

Lemma SILValueCategory_of_unsigned (c : SILValueCategory) :
  SILValueCategory_of (unsigned c) = Some c.
Proof. destruct c; reflexivity. Qed.

Lemma aligned_null : aligned PtrBits NumLowBitsAvailable null.
Proof.
  pose proof layout as L. split.
  - unfold null. split; [lia | apply Z.pow_pos_nonneg; lia].
  - apply Z.land_0_l.
Qed.

Lemma lowered_aligned (t : CanType) :
  lowered A t -> aligned PtrBits NumLowBitsAvailable t.
Proof.
  intros [-> | [Hd _]]; [apply aligned_null |].
  destruct (deref A t) as [node |] eqn:E; [| congruence].
  exact (deref_aligned _ _ _ ok t node E).
Qed.

(** The constructor succeeds on the null type and on legal SIL types. *)
Lemma SILType_new_lowered (t : CanType) (c : SILValueCategory) :
  lowered A t -> SILType_new t c = Some (encoded t c).
Proof.
  intros Ht. unfold SIL.SILType_new.
  rewrite (make_eq PtrBits N layout t (unsigned c))
    by (auto using lowered_aligned, unsigned_range).
  cbn [obind]. destruct (Z.eqb_spec t null) as [E | E]; [reflexivity |].
  destruct Ht as [Ht | [Hd Hl]]; [contradiction |].
  unfold call. destruct (deref A t); [| congruence].
  cbn [obind]. rewrite Hl. reflexivity.
Qed.

(** It succeeds on nothing else. *)
Lemma SILType_new_inv (t : CanType) (c : SILValueCategory) (h : SILType) :
  SILType_new t c = Some h -> lowered A t /\ h = encoded t c.
Proof.
  intros H.
  assert (L : lowered A t).
  { unfold SIL.SILType_new in H.
    destruct (PointerIntPair.make W N t (unsigned c)); [| discriminate].
    cbn [obind] in H.
    destruct (Z.eqb_spec t null) as [E | E]; [now left | right].
    unfold call in H. destruct (deref A t); [| discriminate].
    cbn [obind] in H. split; [discriminate |].
    destruct (isLegalSILType A t); [reflexivity | discriminate]. }
  split; [exact L |].
  rewrite (SILType_new_lowered t c L) in H. congruence.
Qed.

Lemma getASTType_encoded (t : CanType) (c : SILValueCategory) :
  lowered A t -> getASTType (encoded t c) = t.
Proof.
  intros Ht. unfold SIL.getASTType, SIL.encoded. cbn [value].
  apply getPointer_lor; auto using lowered_aligned, unsigned_range, layout.
Qed.

Lemma getCategory_encoded (t : CanType) (c : SILValueCategory) :
  lowered A t -> getCategory (encoded t c) = Some c.
Proof.
  intros Ht. unfold SIL.getCategory, SIL.encoded. cbn [value].
  rewrite getInt_lor by auto using lowered_aligned, unsigned_range, layout.
  apply SILValueCategory_of_unsigned.
Qed.

(** A handle is the encoding of its own projections. *)
Lemma is_handle_encoded (h : SILType) :
  is_handle h ->
  exists t c, lowered A t /\ h = encoded t c /\
              getASTType h = t /\ getCategory h = Some c.
Proof.
  intros (t & c & H). apply SILType_new_inv in H. destruct H as [L ->].
  exists t, c. auto using getASTType_encoded, getCategory_encoded.
Qed.

Lemma is_handle_lowered (h : SILType) :
  is_handle h -> lowered A (getASTType h).
Proof.
  intros H. destruct (is_handle_encoded h H) as (t & c & L & _ & -> & _).
  exact L.
Qed.

Lemma SILType_new_is_handle (t : CanType) (c : SILValueCategory) (h : SILType) :
  SILType_new t c = Some h -> is_handle h.
Proof. intros H. exists t, c. exact H. Qed.

(** The default handle is the one the constructor builds from the null type
    and the object category. *)
Lemma SILType_default_is_handle : is_handle SILType_default.
Proof.
  exists null, Object.
  rewrite SILType_new_lowered by now left.
  unfold SIL.encoded, SILType_default, PointerIntPair.empty, null.
  cbn [unsigned]. now rewrite Z.shiftl_0_l.
Qed.

Lemma operator_eq_true (h1 h2 : SILType) :
  operator_eq h1 h2 = true <-> h1 = h2.
Proof.
  unfold operator_eq, getOpaqueValue. rewrite Z.eqb_eq.
  destruct h1 as [v1], h2 as [v2]. cbn. split; congruence.
Qed.

Lemma isNull_encoded_null (c : SILValueCategory) :
  isNull PtrBits NumLowBitsAvailable (encoded null c) = true.
Proof.
  unfold isNull. fold (getASTType (encoded null c)).
  rewrite getASTType_encoded by now left. reflexivity.
Qed.

Lemma encoded_inj (t t' : CanType) (c c' : SILValueCategory) :
  lowered A t -> lowered A t' ->
  encoded t c = encoded t' c' -> t = t' /\ c = c'.
Proof.
  intros L L' E. split.
  - rewrite <- (getASTType_encoded t c L), <- (getASTType_encoded t' c' L').
    now rewrite E.
  - pose proof (getCategory_encoded t c L) as H.
    rewrite E, (getCategory_encoded t' c' L') in H. congruence.
Qed.

(** *** Construction *)

(** C1.  For every CanonicalType [t] from which a handle may be built (the
    null type or a legal SIL type) and every category [c], the constructor
    [getPrimitiveType(t, c)] returns a handle [h], and [h.getCategory()] is
    [c] and [h.getASTType()] is [t]. *)
Theorem getPrimitiveType_projections (t : CanType) (c : SILValueCategory) :
  lowered A t ->
  exists h,
    getPrimitiveType PtrBits NumLowBitsAvailable A t c = Some h /\
    getCategory h = Some c /\
    getASTType h = t.
Proof.
  intros L. exists (encoded t c). unfold getPrimitiveType.
  auto using SILType_new_lowered, getCategory_encoded, getASTType_encoded.
Qed.

(** *** Equality *)

(** C2.  Two handles are equal under [operator==], which compares the
    encoded words, exactly when their AST types are equal and their
    categories are equal. *)
Theorem operator_eq_iff_projections (h1 h2 : SILType) :
  is_handle h1 -> is_handle h2 ->
  (operator_eq h1 h2 = true <->
   getASTType h1 = getASTType h2 /\ getCategory h1 = getCategory h2).
Proof.
  intros H1 H2. rewrite operator_eq_true.
  destruct (is_handle_encoded h1 H1) as (t1 & c1 & L1 & E1 & T1 & C1).
  destruct (is_handle_encoded h2 H2) as (t2 & c2 & L2 & E2 & T2 & C2).
  split.
  - intros ->. auto.
  - rewrite T1, T2, C1, C2. intros [-> Hc]. injection Hc as ->.
    congruence.
Qed.

(** *** Null handles *)

(** C3, as the code has it.  A handle built from the null type is null
    whatever its category, and keeps the category it was built with;
    [getPrimitiveType(null, Object)] is the default handle [SILType()]; and
    two handles built from the null type are equal under [operator==] exactly
    when their categories are equal. *)
Theorem null_handles_by_category :
  (forall c, exists h,
      getPrimitiveType PtrBits NumLowBitsAvailable A null c = Some h /\
      isNull PtrBits NumLowBitsAvailable h = true /\
      getCategory h = Some c) /\
  isNull PtrBits NumLowBitsAvailable SILType_default = true /\
  getPrimitiveType PtrBits NumLowBitsAvailable A null Object
    = Some SILType_default /\
  (forall c c' h h',
      getPrimitiveType PtrBits NumLowBitsAvailable A null c = Some h ->
      getPrimitiveType PtrBits NumLowBitsAvailable A null c' = Some h' ->
      (operator_eq h h' = true <-> c = c')).
Proof.
  assert (L : lowered A null) by now left.
  assert (D : SILType_default = encoded null Object).
  { unfold SIL.encoded, SILType_default, PointerIntPair.empty, null.
    cbn [unsigned]. now rewrite Z.shiftl_0_l. }
  split; [| split; [| split]].
  - intros c. exists (encoded null c). unfold getPrimitiveType.
    auto using SILType_new_lowered, isNull_encoded_null, getCategory_encoded.
  - rewrite D. apply isNull_encoded_null.
  - rewrite D. now apply SILType_new_lowered.
  - intros c c' h h'. unfold getPrimitiveType.
    rewrite !SILType_new_lowered by exact L.
    intros [= <-] [= <-]. rewrite operator_eq_true. split.
    + intros E. now apply encoded_inj in E.
    + now intros ->.
Qed.

(** *** Changing the category *)

Lemma getCategoryType_encoded (h : SILType) (c : SILValueCategory) :
  lowered A (getASTType h) ->
  getCategoryType PtrBits NumLowBitsAvailable A h c
    = Some (encoded (getASTType h) c).
Proof. intros L. now apply SILType_new_lowered. Qed.

Lemma getCategoryType_getASTType (h r : SILType) (c : SILValueCategory) :
  getCategoryType PtrBits NumLowBitsAvailable A h c = Some r ->
  getASTType r = getASTType h /\ getCategory r = Some c.
Proof.
  intros H. apply SILType_new_inv in H. destruct H as [L ->].
  auto using getASTType_encoded, getCategory_encoded.
Qed.

(** C4.  On a handle [h]: changing the category twice is changing it to the
    second category; address, object, address is address; and each of
    [getCategoryType], [copyCategory], [getAddressType] and [getObjectType]
    returns a handle with the AST type of [h]. *)
Theorem category_changes (h Ty : SILType) (c c' : SILValueCategory) :
  is_handle h -> is_handle Ty ->
  (exists r r',
      (h1 <- getCategoryType PtrBits NumLowBitsAvailable A h c ;;
       getCategoryType PtrBits NumLowBitsAvailable A h1 c') = Some r /\
      getCategoryType PtrBits NumLowBitsAvailable A h c' = Some r' /\
      operator_eq r r' = true) /\
  (exists r r',
      (a <- getAddressType PtrBits NumLowBitsAvailable A h ;;
       o <- getObjectType PtrBits NumLowBitsAvailable A a ;;
       getAddressType PtrBits NumLowBitsAvailable A o) = Some r /\
      getAddressType PtrBits NumLowBitsAvailable A h = Some r' /\
      operator_eq r r' = true) /\
  (exists r, getCategoryType PtrBits NumLowBitsAvailable A h c = Some r /\
             getASTType r = getASTType h) /\
  (exists r, copyCategory PtrBits NumLowBitsAvailable A h Ty = Some r /\
             getASTType r = getASTType h /\
             getCategory r = getCategory Ty) /\
  (exists r, getAddressType PtrBits NumLowBitsAvailable A h = Some r /\
             getASTType r = getASTType h) /\
  (exists r, getObjectType PtrBits NumLowBitsAvailable A h = Some r /\
             getASTType r = getASTType h).
Proof.
  intros Hh HTy. pose proof (is_handle_lowered h Hh) as L.
  set (t := getASTType h) in *.
  assert (G : forall k, getCategoryType PtrBits NumLowBitsAvailable A h k
                        = Some (encoded t k))
    by (intros k; now apply getCategoryType_encoded).
  assert (G' : forall k k', getCategoryType PtrBits NumLowBitsAvailable A
                              (encoded t k) k' = Some (encoded t k')).
  { intros k k'. rewrite getCategoryType_encoded;
      rewrite getASTType_encoded; auto. }
  unfold getAddressType, getObjectType.
  fold (getCategoryType PtrBits NumLowBitsAvailable A h Address).
  fold (getCategoryType PtrBits NumLowBitsAvailable A h Object).
  split; [| split; [| split; [| split; [| split]]]].
  - exists (encoded t c'), (encoded t c').
    rewrite !G. cbn [obind]. rewrite G'.
    repeat split; now apply operator_eq_true.
  - exists (encoded t Address), (encoded t Address).
    rewrite !G. cbn [obind].
    fold (getCategoryType PtrBits NumLowBitsAvailable A (encoded t Address) Object).
    rewrite G'. cbn [obind].
    fold (getCategoryType PtrBits NumLowBitsAvailable A (encoded t Object) Address).
    rewrite G'. repeat split; now apply operator_eq_true.
  - exists (encoded t c). rewrite G. auto using getASTType_encoded.
  - destruct (is_handle_encoded Ty HTy) as (t' & k & _ & _ & _ & K).
    exists (encoded t k). unfold copyCategory. rewrite K. cbn [obind].
    rewrite G. auto using getASTType_encoded, getCategory_encoded.
  - exists (encoded t Address). rewrite G. auto using getASTType_encoded.
  - exists (encoded t Object). rewrite G. auto using getASTType_encoded.
Qed.

(** *** Structural predicates *)

(** C5, as the code has it.  Changing the category of a handle [h] to [c]
    gives a handle on which [isVoid], [isAnyObject], [hasReferenceSemantics],
    [isAnyClassReferenceType], [hasRetainablePointerRepresentation],
    [isExistentialType], [isAnyExistentialType], [isClassExistentialType],
    [isOpenedExistential], [hasOpenedExistential], [hasTypeParameter],
    [hasArchetype], [isBridgeableObjectType] and the static
    [isClassOrClassMetatype(Type)] answer as they do on [h].  The member
    [isClassOrClassMetatype()] is the static one guarded by [isObject()]: on
    the new handle it is the static answer when [c] is [Object] and false
    when [c] is [Address]; so it answers as on [h] exactly when [c] is the
    category of [h] or the static one is false on the type of [h]. *)
Theorem predicates_under_getCategoryType (h : SILType) (c : SILValueCategory) :
  is_handle h ->
  exists r,
    getCategoryType PtrBits NumLowBitsAvailable A h c = Some r /\
    isVoid PtrBits NumLowBitsAvailable A r
      = isVoid PtrBits NumLowBitsAvailable A h /\
    isAnyObject PtrBits NumLowBitsAvailable A r
      = isAnyObject PtrBits NumLowBitsAvailable A h /\
    hasReferenceSemantics PtrBits NumLowBitsAvailable A r
      = hasReferenceSemantics PtrBits NumLowBitsAvailable A h /\
    isAnyClassReferenceType PtrBits NumLowBitsAvailable A r
      = isAnyClassReferenceType PtrBits NumLowBitsAvailable A h /\
    hasRetainablePointerRepresentation PtrBits NumLowBitsAvailable A r
      = hasRetainablePointerRepresentation PtrBits NumLowBitsAvailable A h /\
    isExistentialType PtrBits NumLowBitsAvailable A r
      = isExistentialType PtrBits NumLowBitsAvailable A h /\
    isAnyExistentialType PtrBits NumLowBitsAvailable A r
      = isAnyExistentialType PtrBits NumLowBitsAvailable A h /\
    isClassExistentialType PtrBits NumLowBitsAvailable A r
      = isClassExistentialType PtrBits NumLowBitsAvailable A h /\
    isOpenedExistential PtrBits NumLowBitsAvailable A r
      = isOpenedExistential PtrBits NumLowBitsAvailable A h /\
    hasOpenedExistential PtrBits NumLowBitsAvailable A r
      = hasOpenedExistential PtrBits NumLowBitsAvailable A h /\
    hasTypeParameter PtrBits NumLowBitsAvailable A r
      = hasTypeParameter PtrBits NumLowBitsAvailable A h /\
    hasArchetype PtrBits NumLowBitsAvailable A r
      = hasArchetype PtrBits NumLowBitsAvailable A h /\
    isBridgeableObjectType PtrBits NumLowBitsAvailable A r
      = isBridgeableObjectType PtrBits NumLowBitsAvailable A h /\
    isClassOrClassMetatype_of A (getASTType r)
      = isClassOrClassMetatype_of A (getASTType h) /\
    isClassOrClassMetatype PtrBits NumLowBitsAvailable A r
      = match c with
        | Object => isClassOrClassMetatype_of A (getASTType h)
        | Address => Some false
        end /\
    (getCategory h = Some c ->
     isClassOrClassMetatype PtrBits NumLowBitsAvailable A r
       = isClassOrClassMetatype PtrBits NumLowBitsAvailable A h) /\
    (isClassOrClassMetatype PtrBits NumLowBitsAvailable A r
       = isClassOrClassMetatype PtrBits NumLowBitsAvailable A h <->
     getCategory h = Some c \/
     isClassOrClassMetatype_of A (getASTType h) = Some false).
Proof.
  intros Hh. pose proof (is_handle_lowered h Hh) as L.
  exists (encoded (getASTType h) c).
  split; [now apply getCategoryType_encoded |].
  pose proof (getASTType_encoded (getASTType h) c L) as E.
  pose proof (getCategory_encoded (getASTType h) c L) as K.
  set (r := encoded (getASTType h) c) in *.
  assert (M : isClassOrClassMetatype PtrBits NumLowBitsAvailable A r
              = match c with
                | Object => isClassOrClassMetatype_of A (getASTType h)
                | Address => Some false
                end).
  { unfold isClassOrClassMetatype, isObject. rewrite K, E.
    destruct c; reflexivity. }
  unfold isVoid, isAnyObject, hasReferenceSemantics, isAnyClassReferenceType,
    hasRetainablePointerRepresentation, isExistentialType,
    isAnyExistentialType, isClassExistentialType, isOpenedExistential,
    hasOpenedExistential, hasTypeParameter, hasArchetype,
    isBridgeableObjectType.
  fold (getASTType r). fold (getASTType h). rewrite E.
  repeat (split; [reflexivity |]).
  split; [exact M |].
  split.
  - intros Kh. rewrite M. unfold isClassOrClassMetatype, isObject. rewrite Kh.
    destruct c; reflexivity.
  - rewrite M. unfold isClassOrClassMetatype, isObject.
    destruct (is_handle_encoded h Hh) as (t & k & _ & _ & _ & ->).
    destruct (isClassOrClassMetatype_of A (getASTType h)) as [[|] |];
      destruct c, k; split; try reflexivity; try discriminate; auto;
      intros [[=] | [=]].
Qed.

(** *** Block pointers *)

Variable getOptionalObjectType : SILType -> option SILType.
Hypothesis getOptionalObjectType_ok :
  getOptionalObjectType_documented PtrBits NumLowBitsAvailable A
    getOptionalObjectType.

Lemma operator_bool_isNull (h : SILType) :
  operator_bool PtrBits NumLowBitsAvailable h
    = negb (isNull PtrBits NumLowBitsAvailable h).
Proof. reflexivity. Qed.

Lemma live_not_null (t : CanType) : deref A t <> None -> (t =? null) = false.
Proof.
  intros H. destruct (Z.eqb_spec t null) as [-> |]; [| reflexivity].
  now rewrite (deref_null _ _ _ ok) in H.
Qed.

(** What [isBlockPointerCompatible] computes, by the node of the type. *)
Lemma isBlockPointerCompatible_eq (h : SILType) (node : TypeBase) :
  deref A (getASTType h) = Some node ->
  isBlockPointerCompatible PtrBits NumLowBitsAvailable A
    getOptionalObjectType h
  = match node with
    | SILFunctionType Rep => Some (Representation_eqb Rep Block)
    | OptionalType T =>
        match deref A T with
        | Some (SILFunctionType Rep) => Some (Representation_eqb Rep Block)
        | Some _ => Some false
        | None => None
        end
    | _ => Some false
    end.
Proof.
  intros D. unfold isBlockPointerCompatible.
  destruct (getOptionalObjectType_ok h node D) as (r & -> & Hr).
  cbn [obind]. rewrite operator_bool_isNull.
  destruct node as [Rep | T | I | Decl | id].
  2: { pose proof (deref_closed _ _ _ ok _ _ D) as C. cbn in C.
       unfold isNull. fold (getASTType r). rewrite Hr, (live_not_null T C).
       cbn [negb]. unfold SIL.getAs_SILFunctionType, AST.getAs_SILFunctionType.
       fold (getASTType r). rewrite Hr.
       destruct (deref A T) as [[Rep | T' | I | Decl | id] |]; reflexivity. }
  all: rewrite Hr; cbn [negb];
    unfold SIL.getAs_SILFunctionType, AST.getAs_SILFunctionType;
    fold (getASTType h); rewrite D; reflexivity.
Qed.

Lemma Representation_eqb_eq (a b : SILFunctionTypeRepresentation) :
  Representation_eqb a b = true <-> a = b.
Proof. destruct a, b; cbn; split; congruence. Qed.

(** C6.  On a handle whose type is the node [node], the function
    [isBlockPointerCompatible] returns, and it returns true exactly when
    [node] is a function type of representation [Block] or is [Optional<T>]
    for a [T] that is a function type of representation [Block].  Only one
    optional is looked through: on [Optional<Optional<T'>>] it returns
    false, whatever [T'] is; and on a function type of any representation
    other than [Block] it returns false. *)
Theorem isBlockPointerCompatible_iff (h : SILType) (node : TypeBase) :
  deref A (getASTType h) = Some node ->
  exists b,
    isBlockPointerCompatible PtrBits NumLowBitsAvailable A
      getOptionalObjectType h = Some b /\
    (b = true <->
     node = SILFunctionType Block \/
     exists T, node = OptionalType T /\
               deref A T = Some (SILFunctionType Block)) /\
    (forall T T', node = OptionalType T ->
                  deref A T = Some (OptionalType T') -> b = false) /\
    (forall Rep, node = SILFunctionType Rep -> Rep <> Block -> b = false).
Proof.
  intros D. rewrite (isBlockPointerCompatible_eq h node D).
  pose proof (deref_closed _ _ _ ok _ _ D) as C.
  destruct node as [Rep | T | I | Decl | id].
  - exists (Representation_eqb Rep Block). split; [reflexivity |].
    rewrite Representation_eqb_eq. repeat split.
    + intros ->. now left.
    + intros [[= ->] | (T & [=] & _)]. reflexivity.
    + discriminate.
    + intros R [= <-] NB. destruct (Representation_eqb Rep Block) eqn:E;
        [apply Representation_eqb_eq in E; contradiction | reflexivity].
  - cbn in C. destruct (deref A T) as [nodeT |] eqn:DT; [| contradiction].
    exists (match nodeT with
            | SILFunctionType Rep => Representation_eqb Rep Block
            | _ => false
            end).
    split; [destruct nodeT; reflexivity |]. repeat split.
    + intros B. right. exists T. split; [reflexivity |].
      destruct nodeT as [Rep | | | |]; try discriminate.
      apply Representation_eqb_eq in B. now subst.
    + intros [[=] | (T0 & [= <-] & DT0)].
      rewrite DT in DT0. injection DT0 as ->. reflexivity.
    + intros T0 T' [= <-] DT0. rewrite DT in DT0. injection DT0 as ->.
      reflexivity.
    + discriminate.
  - exists false. split; [reflexivity |]. repeat split; try discriminate.
    intros [[=] | (T & [=] & _)].
  - exists false. split; [reflexivity |]. repeat split; try discriminate.
    intros [[=] | (T & [=] & _)].
  - exists false. split; [reflexivity |]. repeat split; try discriminate.
    intros [[=] | (T & [=] & _)].
Qed.

Lemma getInt_range (v : Z) :
  0 <= PointerIntPair.getInt PtrBits NumLowBitsAvailable v < 4.
Proof.
  unfold PointerIntPair.getInt. rewrite (IntMask_eq PtrBits N layout).
  change 3 with (Z.ones 2). rewrite Z.land_ones by lia.
  change (2 ^ 2) with 4. apply Z.mod_pos_bound. lia.
Qed.

Lemma isNull_SILType_default :
  isNull PtrBits NumLowBitsAvailable SILType_default = true.
Proof.
  unfold isNull, SILType_default, PointerIntPair.getPointer,
    PointerIntPair.empty.
  cbn [value]. now rewrite Z.land_0_l.
Qed.

(** The plain implementation meets the documentation. *)
Lemma getOptionalObjectType_plain_documented :
  getOptionalObjectType_documented PtrBits NumLowBitsAvailable A
    (getOptionalObjectType_plain PtrBits NumLowBitsAvailable A).
Proof.
  intros h node D. unfold getOptionalObjectType_plain.
  fold (getASTType h). rewrite D. cbn [obind].
  destruct node as [Rep | T | I | Decl | id].
  2: { pose proof (deref_closed _ _ _ ok _ _ D) as C. cbn in C.
       destruct (deref A T) as [nodeT |] eqn:DT; [| contradiction].
       pose proof (deref_aligned _ _ _ ok T nodeT DT) as AT.
       rewrite (make_eq PtrBits N layout T _ AT (getInt_range _)).
       cbn [obind]. eexists. split; [reflexivity |].
       unfold SIL.getASTType. cbn [value].
       apply getPointer_lor; auto using layout, getInt_range. }
  all: exists SILType_default; split; [reflexivity |];
    apply isNull_SILType_default.
Qed.

End HandleFacts.

(** ** Lowering-sensitive predicates *)

Section LoweringFacts.

Import AST SIL.

Variable SILFunction : Type.
Variable isAddressOnly : SILType -> SILFunction -> bool.

(** C7.  [isLoadable(F)] is the negation of [isAddressOnly(F)]: on every
    handle and function exactly one of the two holds. *)
Theorem isLoadable_negates_isAddressOnly (h : SILType) (F : SILFunction) :
  isLoadable SILFunction isAddressOnly h F = negb (isAddressOnly h F) /\
  (isLoadable SILFunction isAddressOnly h F = true <->
   isAddressOnly h F = false) /\
  (isLoadable SILFunction isAddressOnly h F = false <->
   isAddressOnly h F = true).
Proof.
  unfold isLoadable. destruct (isAddressOnly h F); cbn; intuition congruence.
Qed.

Variables TypeConverter CanGenericSignature : Type.
Variable isAddressOnly_lowered :
  CanType -> TypeConverter -> CanGenericSignature -> ResilienceExpansion ->
  bool * TypeConverter.

(** C10.  The static predicates [isFormallyReturnedIndirectly] and
    [isFormallyPassedIndirectly] coincide, in their answer and in the type
    converter they leave behind: each is [isAddressOnly] at the minimal
    resilience expansion. *)
Theorem formally_indirect_queries_coincide
  (type : CanType) (tc : TypeConverter) (sig : CanGenericSignature) :
  isFormallyReturnedIndirectly TypeConverter CanGenericSignature
    isAddressOnly_lowered type tc sig
  = isFormallyPassedIndirectly TypeConverter CanGenericSignature
      isAddressOnly_lowered type tc sig /\
  isFormallyReturnedIndirectly TypeConverter CanGenericSignature
    isAddressOnly_lowered type tc sig
  = isAddressOnly_lowered type tc sig Minimal /\
  isFormallyPassedIndirectly TypeConverter CanGenericSignature
    isAddressOnly_lowered type tc sig
  = isAddressOnly_lowered type tc sig Minimal.
Proof. repeat split. Qed.

End LoweringFacts.

(** ** The persistent parser state *)

Section ParseFacts.

Import Parse.

Variables SavedScope ScopeInfoTy TopLevelContext : Type.

Local Abbreviation State :=
  (PersistentParserState SavedScope ScopeInfoTy TopLevelContext).
Local Abbreviation Call := (Parse.Call ScopeInfoTy TopLevelContext).

Lemma unmarked_cons (c : Call) (cs : list Call) :
  unmarked (c :: cs) -> is_mark c = false /\ unmarked cs.
Proof.
  unfold unmarked. cbn [forallb]. rewrite andb_true_iff, negb_true_iff. auto.
Qed.



(** Once reset, the marked position stays reset until it is marked again. *)
Lemma after_MarkedPos_reset (c : Call) (this : State) :
  is_mark c = false ->
  MarkedPos this = ParserPosition_default ->
  MarkedPos (after c this) = ParserPosition_default.
Proof. destruct c; cbn; congruence. Qed.

Lemma run_MarkedPos_reset (cs : list Call) (this : State) :
  unmarked cs ->
  MarkedPos this = ParserPosition_default ->
  MarkedPos (run cs this) = ParserPosition_default.
Proof.
  revert this. induction cs as [| c cs IH]; intros this U M; [exact M |].
  apply unmarked_cons in U. destruct U as [Hc U]. cbn [run].
  apply IH; [exact U |]. now apply after_MarkedPos_reset.
Qed.


(** C8.  [takeDelayedDeclState] returns the pending state and leaves the
    slot empty, so that [hasDelayedDecl] is false afterwards.
    [takeParserPosition] returns the marked position and resets it to the
    invalid sentinel, so that the next [takeParserPosition], after any calls
    that do not mark a position, returns an invalid position. *)
Theorem take_semantics (this : State) (cs : list Call) :
  unmarked cs ->
  (fst (takeDelayedDeclState this) = CodeCompletionDelayedDeclState this /\
   CodeCompletionDelayedDeclState (snd (takeDelayedDeclState this)) = None /\
   fst (hasDelayedDecl (snd (takeDelayedDeclState this))) = false) /\
  (fst (takeParserPosition this) = MarkedPos this /\
   MarkedPos (snd (takeParserPosition this)) = ParserPosition_default /\
   ParserPosition_isValid
     (fst (takeParserPosition (snd (takeParserPosition this)))) = false /\
   ParserPosition_isValid
     (fst (takeParserPosition (run cs (snd (takeParserPosition this)))))
   = false).
Proof.
  intros U. repeat split.
  cbn [takeParserPosition fst].
  rewrite run_MarkedPos_reset by (exact U || reflexivity). reflexivity.
Qed.


End ParseFacts.

(** ** The small arena and the small parser state *)

Section DemoFacts.

Import AST SIL.

Local Abbreviation W := Demo.PtrBits.
Local Abbreviation N := Demo.NumLowBitsAvailable.

(** Case analysis on the address of a node. *)
Ltac each_node p :=
  match goal with
  | |- context [p =? ?q] => destruct (Z.eqb_spec p q) as [-> | _]
  end.

Lemma Demo_arena_ok : arena_ok W N Demo.arena.
Proof.
  split.
  - unfold W, N, Demo.PtrBits, Demo.NumLowBitsAvailable. lia.
  - reflexivity.
  - intros p node. cbn [deref Demo.arena Demo.nodes Demo.lookup].
    repeat (each_node p;
            [intros _; split; [vm_compute; split; congruence | reflexivity] |]).
    discriminate.
  - intros p node. cbn [deref Demo.arena Demo.nodes Demo.lookup].
    repeat (each_node p;
            [intros [= <-]; vm_compute; try exact I; discriminate |]).
    discriminate.
Qed.

Lemma Demo_handles :
  is_handle W N Demo.arena Demo.Int32_object /\
  is_handle W N Demo.arena Demo.Int32_address /\
  is_handle W N Demo.arena Demo.SomeClass_object /\
  is_handle W N Demo.arena Demo.SomeClass_address /\
  is_handle W N Demo.arena Demo.OptionalBlockFn_object.
Proof.
  split; [exists Demo.Int32, Object; reflexivity |].
  split; [exists Demo.Int32, Address; reflexivity |].
  split; [exists Demo.SomeClass, Object; reflexivity |].
  split; [exists Demo.SomeClass, Address; reflexivity |].
  exists Demo.OptionalBlockFn, Object; reflexivity.
Qed.

(** Scenario S1: category flipping on [Int32]. *)
Example Int32_category_flipping :
  getPrimitiveObjectType W N Demo.arena Demo.Int32 = Some Demo.Int32_object /\
  isObject W N Demo.Int32_object = true /\
  isAddress W N Demo.Int32_object = false /\
  getAddressType W N Demo.arena Demo.Int32_object = Some Demo.Int32_address /\
  isAddress W N Demo.Int32_address = true /\
  getASTType W N Demo.Int32_address = Demo.Int32.
Proof. repeat split. Qed.

(** Scenario S3: block compatibility, with the plain
    [getOptionalObjectType]. *)
Example block_compatibility :
  let compatible :=
    isBlockPointerCompatible W N Demo.arena
      (getOptionalObjectType_plain W N Demo.arena) in
  compatible Demo.BlockFn_object = Some true /\
  compatible Demo.OptionalBlockFn_object = Some true /\
  compatible Demo.OptionalOptionalBlockFn_object = Some false /\
  compatible Demo.ThickFn_object = Some false /\
  compatible Demo.Int32_object = Some false.
Proof. repeat split. Qed.

(** *** The theorems at these inputs *)

Lemma getPrimitiveType_projections_witness :
  arena_ok W N Demo.arena /\
  lowered Demo.arena Demo.Int32 /\
  exists h,
    getPrimitiveType W N Demo.arena Demo.Int32 Address = Some h /\
    getCategory W N h = Some Address /\
    getASTType W N h = Demo.Int32.
Proof.
  assert (L : lowered Demo.arena Demo.Int32)
    by (right; split; [discriminate | reflexivity]).
  split; [exact Demo_arena_ok |]. split; [exact L |].
  exact (getPrimitiveType_projections W N Demo.arena Demo_arena_ok
           Demo.Int32 Address L).
Defined.

Lemma operator_eq_iff_projections_witness :
  arena_ok W N Demo.arena /\
  is_handle W N Demo.arena Demo.Int32_object /\
  is_handle W N Demo.arena Demo.Int32_address /\
  (operator_eq Demo.Int32_object Demo.Int32_address = true <->
   getASTType W N Demo.Int32_object = getASTType W N Demo.Int32_address /\
   getCategory W N Demo.Int32_object = getCategory W N Demo.Int32_address).
Proof.
  destruct Demo_handles as (H1 & H2 & _).
  split; [exact Demo_arena_ok |]. split; [exact H1 |]. split; [exact H2 |].
  exact (operator_eq_iff_projections W N Demo.arena Demo_arena_ok
           Demo.Int32_object Demo.Int32_address H1 H2).
Defined.

(** C3 fails as stated: the null handle of category [Address] is null, and
    is equal neither to the null handle of category [Object] nor to the
    default handle. *)
Lemma null_address_handle_differs :
  getPrimitiveType W N Demo.arena null Object = Some Demo.null_object /\
  getPrimitiveType W N Demo.arena null Address = Some Demo.null_address /\
  isNull W N Demo.null_object = true /\
  isNull W N Demo.null_address = true /\
  operator_eq Demo.null_object Demo.null_address = false /\
  operator_eq Demo.null_address SILType_default = false.
Proof. repeat split. Qed.

Lemma null_handles_by_category_witness :
  arena_ok W N Demo.arena /\
  (forall c c' h h',
      getPrimitiveType W N Demo.arena null c = Some h ->
      getPrimitiveType W N Demo.arena null c' = Some h' ->
      (operator_eq h h' = true <-> c = c')).
Proof.
  split; [exact Demo_arena_ok |].
  exact (proj2 (proj2 (proj2
    (null_handles_by_category W N Demo.arena Demo_arena_ok)))).
Defined.

Lemma category_changes_witness :
  arena_ok W N Demo.arena /\
  is_handle W N Demo.arena Demo.SomeClass_object /\
  is_handle W N Demo.arena Demo.Int32_address /\
  exists r,
    copyCategory W N Demo.arena Demo.SomeClass_object Demo.Int32_address
      = Some r /\
    getASTType W N r = getASTType W N Demo.SomeClass_object /\
    getCategory W N r = getCategory W N Demo.Int32_address.
Proof.
  destruct Demo_handles as (_ & H2 & H3 & _).
  split; [exact Demo_arena_ok |]. split; [exact H3 |]. split; [exact H2 |].
  exact (proj1 (proj2 (proj2 (proj2
    (category_changes W N Demo.arena Demo_arena_ok
       Demo.SomeClass_object Demo.Int32_address Address Object H3 H2))))).
Defined.

(** C5 fails as stated for the member [isClassOrClassMetatype()]: it is
    true on the object handle of a class and false on the address handle of
    the same class. *)
Lemma isClassOrClassMetatype_depends_on_category :
  is_handle W N Demo.arena Demo.SomeClass_object /\
  getCategoryType W N Demo.arena Demo.SomeClass_object Address
    = Some Demo.SomeClass_address /\
  isClassOrClassMetatype W N Demo.arena Demo.SomeClass_object = Some true /\
  isClassOrClassMetatype W N Demo.arena Demo.SomeClass_address = Some false.
Proof.
  split; [apply Demo_handles |]. repeat split.
Qed.

Lemma predicates_under_getCategoryType_witness :
  arena_ok W N Demo.arena /\
  is_handle W N Demo.arena Demo.SomeClass_object /\
  exists r,
    getCategoryType W N Demo.arena Demo.SomeClass_object Address = Some r /\
    hasReferenceSemantics W N Demo.arena r
      = hasReferenceSemantics W N Demo.arena Demo.SomeClass_object.
Proof.
  destruct Demo_handles as (_ & _ & H3 & _).
  split; [exact Demo_arena_ok |]. split; [exact H3 |].
  destruct (predicates_under_getCategoryType W N Demo.arena Demo_arena_ok
              Demo.SomeClass_object Address H3)
    as (r & G & _ & _ & R & _).
  exists r. split; [exact G | exact R].
Defined.

Lemma isBlockPointerCompatible_iff_witness :
  arena_ok W N Demo.arena /\
  getOptionalObjectType_documented W N Demo.arena
    (getOptionalObjectType_plain W N Demo.arena) /\
  deref Demo.arena (getASTType W N Demo.OptionalBlockFn_object)
    = Some (OptionalType Demo.BlockFn) /\
  exists b,
    isBlockPointerCompatible W N Demo.arena
      (getOptionalObjectType_plain W N Demo.arena)
      Demo.OptionalBlockFn_object = Some b /\
    (b = true <->
     OptionalType Demo.BlockFn = SILFunctionType Block \/
     exists T, OptionalType Demo.BlockFn = OptionalType T /\
               deref Demo.arena T = Some (SILFunctionType Block)).
Proof.
  pose proof (getOptionalObjectType_plain_documented W N Demo.arena
                Demo_arena_ok) as G.
  split; [exact Demo_arena_ok |]. split; [exact G |].
  split; [reflexivity |].
  destruct (isBlockPointerCompatible_iff W N Demo.arena Demo_arena_ok
              (getOptionalObjectType_plain W N Demo.arena) G
              Demo.OptionalBlockFn_object (OptionalType Demo.BlockFn)
              eq_refl)
    as (b & E & I & _).
  exists b. split; [exact E | exact I].
Defined.

Lemma take_semantics_witness :
  Parse.unmarked ParseDemo.calls /\
  Parse.ParserPosition_isValid
    (fst (Parse.takeParserPosition
            (Parse.run ParseDemo.calls
               (snd (Parse.takeParserPosition ParseDemo.state)))))
  = false.
Proof.
  split; [reflexivity |].
  exact (proj2 (proj2 (proj2 (proj2
    (take_semantics unit nat nat ParseDemo.state ParseDemo.calls
       eq_refl))))).
Defined.


(** The lowering oracles of the small arena. *)
Example loadable_class_reference :
  isLoadable unit Demo.isAddressOnly Demo.SomeClass_object tt = true /\
  isLoadable unit Demo.isAddressOnly Demo.Int32_address tt = false.
Proof. repeat split. Qed.

Example formally_indirect_Int32 :
  isFormallyReturnedIndirectly nat unit Demo.isAddressOnly_lowered
    Demo.Int32 0%nat tt = (true, 1%nat) /\
  isFormallyPassedIndirectly nat unit Demo.isAddressOnly_lowered
    Demo.Int32 0%nat tt = (true, 1%nat).
Proof. repeat split. Qed.

(** Scenarios S4 and S5 on the small parser state. *)
Example delay_and_resume :
  fst (Parse.hasDelayedDecl ParseDemo.state) = true /\
  fst (Parse.getDelayedDeclKind ParseDemo.state) = Some Parse.FunctionBody /\
  fst (Parse.getDelayedDeclLoc ParseDemo.state)
    = Some {| Parse.Pointer := 100 |} /\
  option_map (@Parse.BodyEnd unit)
    (fst (Parse.takeDelayedDeclState ParseDemo.state))
    = Some {| Parse.Pointer := 200 |} /\
  fst (Parse.hasDelayedDecl (snd (Parse.takeDelayedDeclState ParseDemo.state)))
    = false.
Proof. repeat split. Qed.

Example marked_position :
  let s1 := snd (Parse.markParserPosition ParseDemo.marked true ParseDemo.state) in
  let s2 := snd (Parse.takeParserPosition s1) in
  fst (Parse.takeParserPosition s1) = ParseDemo.marked /\
  Parse.ParserPosition_isValid (fst (Parse.takeParserPosition s1)) = true /\
  Parse.ParserPosition_isValid (fst (Parse.takeParserPosition s2)) = false /\
  Parse.InPoundLineEnvironment (snd (Parse.takeParserPosition s2)) = true.
Proof. repeat split. Qed.

End DemoFacts.

(** ** More on handles *)

Section MoreHandleFacts.

Import AST SIL.

Variables PtrBits NumLowBitsAvailable : Z.
Variable A : TypeArena.
Hypothesis ok : arena_ok PtrBits NumLowBitsAvailable A.

Local Abbreviation N := NumLowBitsAvailable.
Local Abbreviation W := PtrBits.
Local Abbreviation SILType_new := (SIL.SILType_new PtrBits NumLowBitsAvailable A).
Local Abbreviation getASTType := (SIL.getASTType PtrBits NumLowBitsAvailable).
Local Abbreviation getCategory := (SIL.getCategory PtrBits NumLowBitsAvailable).
Local Abbreviation getCategoryType :=
  (SIL.getCategoryType PtrBits NumLowBitsAvailable A).
Local Abbreviation isNull := (SIL.isNull PtrBits NumLowBitsAvailable).
Local Abbreviation isAddress := (SIL.isAddress PtrBits NumLowBitsAvailable).
Local Abbreviation isObject := (SIL.isObject PtrBits NumLowBitsAvailable).
Local Abbreviation is_handle := (SIL.is_handle PtrBits NumLowBitsAvailable A).
Local Abbreviation encoded := (SIL.encoded NumLowBitsAvailable).

Lemma new_lowered (t : CanType) (c : SILValueCategory) :
  lowered A t -> SILType_new t c = Some (encoded t c).
Proof. exact (SILType_new_lowered W N A ok t c). Qed.

Lemma new_inv (t : CanType) (c : SILValueCategory) (h : SILType) :
  SILType_new t c = Some h -> lowered A t /\ h = encoded t c.
Proof. exact (SILType_new_inv W N A ok t c h). Qed.

Lemma ast_encoded (t : CanType) (c : SILValueCategory) :
  lowered A t -> getASTType (encoded t c) = t.
Proof. exact (getASTType_encoded W N A ok t c). Qed.

Lemma cat_encoded (t : CanType) (c : SILValueCategory) :
  lowered A t -> getCategory (encoded t c) = Some c.
Proof. exact (getCategory_encoded W N A ok t c). Qed.

Lemma handle_cases (h : SILType) :
  is_handle h ->
  exists t c, lowered A t /\ h = encoded t c.
Proof.
  intros H. destruct (is_handle_encoded W N A ok h H) as (t & c & L & E & _).
  eauto.
Qed.

Lemma isAddress_encoded (t : CanType) (c : SILValueCategory) :
  lowered A t ->
  isAddress (encoded t c) = SILValueCategory_eqb c Address /\
  isObject (encoded t c) = SILValueCategory_eqb c Object.
Proof.
  intros L. unfold SIL.isAddress, SIL.isObject. rewrite (cat_encoded t c L).
  destruct c; auto.
Qed.

(** X1.  The constructor returns a handle exactly on the null type and on
    the nodes that are legal SIL types; on any other non-null pointer its
    assertion fails. *)
Theorem getPrimitiveType_succeeds_iff (t : CanType) (c : SILValueCategory) :
  ((exists h, getPrimitiveType W N A t c = Some h) <-> lowered A t) /\
  (t <> null -> isLegalSILType A t = false ->
   getPrimitiveType W N A t c = None) /\
  (t <> null -> deref A t = None -> getPrimitiveType W N A t c = None).
Proof.
  unfold getPrimitiveType.
  assert (F : ~ lowered A t -> SILType_new t c = None).
  { intros NL. destruct (SILType_new t c) as [h |] eqn:E; [| reflexivity].
    apply new_inv in E. destruct E as [L _]. contradiction. }
  split; [split |].
  - intros [h H]. now apply new_inv in H.
  - intros L. eexists. now apply new_lowered.
  - split; intros Hn Hl; apply F; intros [-> | [D Lg]]; congruence.
Qed.

(** X2.  The invariant of the class: a handle is either null, with the null
    type, or non-null and then its type is a node of the arena that is a
    legal SIL type. *)
Theorem handle_invariant (h : SILType) :
  is_handle h ->
  (isNull h = true /\ operator_bool W N h = false /\ getASTType h = null) \/
  (isNull h = false /\ operator_bool W N h = true /\
   deref A (getASTType h) <> None /\
   isLegalSILType A (getASTType h) = true).
Proof.
  intros H. pose proof (is_handle_lowered W N A ok h H) as L.
  unfold SIL.operator_bool, SIL.isNull. fold (getASTType h).
  destruct L as [-> | [D Lg]].
  - left. auto.
  - right. rewrite (live_not_null W N A ok _ D). auto.
Qed.

(** X3.  On a handle exactly one of [isAddress] and [isObject] holds;
    [getAddressType] returns an address handle and [getObjectType] an object
    handle. *)
Theorem isAddress_isObject_exclusive (h : SILType) :
  is_handle h ->
  isAddress h = negb (isObject h) /\
  (exists a, getAddressType W N A h = Some a /\
             isAddress a = true /\ isObject a = false) /\
  (exists o, getObjectType W N A h = Some o /\
             isObject o = true /\ isAddress o = false).
Proof.
  intros H. pose proof (is_handle_lowered W N A ok h H) as L.
  destruct (handle_cases h H) as (t & c & Lt & ->).
  split; [| split].
  - destruct (isAddress_encoded t c Lt) as [-> ->]. now destruct c.
  - exists (encoded (getASTType (encoded t c)) Address).
    unfold getAddressType. rewrite new_lowered by exact L.
    destruct (isAddress_encoded _ Address L) as [-> ->]. auto.
  - exists (encoded (getASTType (encoded t c)) Object).
    unfold getObjectType. rewrite new_lowered by exact L.
    destruct (isAddress_encoded _ Object L) as [-> ->]. auto.
Qed.

(** X4.  Changing the category of a handle to the category it has returns
    the handle itself; so does [copyCategory] with the handle itself. *)
Theorem getCategoryType_own_category (h : SILType) :
  is_handle h ->
  exists c,
    getCategory h = Some c /\
    getCategoryType h c = Some h /\
    copyCategory W N A h h = Some h.
Proof.
  intros H. destruct (handle_cases h H) as (t & c & Lt & ->).
  exists c. pose proof (cat_encoded t c Lt) as K.
  assert (G : getCategoryType (encoded t c) c = Some (encoded t c)).
  { unfold SIL.getCategoryType. rewrite (ast_encoded t c Lt).
    now apply new_lowered. }
  split; [exact K |]. split; [exact G |].
  unfold copyCategory. rewrite K. exact G.
Qed.

(** X5.  The variants of a handle in two categories are equal under
    [operator==] exactly when the categories are equal, and [operator!=]
    tells them apart otherwise: the address variant and the object variant
    of a handle are never equal. *)
Theorem getCategoryType_injective (h : SILType) (c c' : SILValueCategory) :
  is_handle h ->
  exists r r',
    getCategoryType h c = Some r /\
    getCategoryType h c' = Some r' /\
    (operator_eq r r' = true <-> c = c') /\
    (operator_ne r r' = true <-> c <> c').
Proof.
  intros H. pose proof (is_handle_lowered W N A ok h H) as L.
  exists (encoded (getASTType h) c), (encoded (getASTType h) c').
  unfold SIL.getCategoryType. rewrite !new_lowered by exact L.
  split; [reflexivity |]. split; [reflexivity |].
  assert (E : operator_eq (encoded (getASTType h) c) (encoded (getASTType h) c')
              = true <-> c = c').
  { rewrite operator_eq_true. split.
    - intros E. now apply (encoded_inj W N A ok) in E.
    - now intros ->. }
  split; [exact E |].
  unfold operator_ne.
  fold (operator_eq (encoded (getASTType h) c) (encoded (getASTType h) c')).
  rewrite negb_true_iff, <- not_true_iff_false. now rewrite E.
Qed.

(** *** The handle as a pointer-like type *)

Lemma testbit_small (n x j : Z) :
  0 <= n -> 0 <= x < 2 ^ n -> n <= j -> Z.testbit x j = false.
Proof.
  intros Hn Hx Hj. rewrite <- (Z.mod_small x (2 ^ n)) by assumption.
  apply Z.mod_pow2_bits_high. lia.
Qed.

Lemma encoded_low (t : CanType) (c : SILValueCategory) (j : Z) :
  lowered A t -> 0 <= j < N - 2 -> Z.testbit (value (encoded t c)) j = false.
Proof.
  intros L Hj. unfold SIL.encoded. cbn [value].
  rewrite Z.lor_spec, Z.shiftl_spec_low by lia.
  pose proof (lowered_aligned W N A ok t L) as Al.
  rewrite (aligned_low W N (layout W N A ok) t j Al) by lia.
  reflexivity.
Qed.

Lemma encoded_word (t : CanType) (c : SILValueCategory) :
  lowered A t -> 0 <= value (encoded t c) < 2 ^ W.
Proof.
  intros L. pose proof (layout W N A ok) as Ly.
  pose proof (lowered_aligned W N A ok t L) as Al.
  assert (E : Z.land (value (encoded t c)) (Z.ones W) = value (encoded t c)).
  { apply Z.bits_inj'. intros j Hj.
    rewrite Z.land_spec, Z.testbit_ones_nonneg by lia.
    destruct (Z.ltb_spec j W); [apply andb_true_r |].
    rewrite andb_false_r. unfold SIL.encoded. cbn [value].
    rewrite Z.lor_spec, Z.shiftl_spec by lia.
    rewrite (word_high W N Ly t j) by (try apply Al; lia).
    rewrite (testbit_small 2 (unsigned c) (j - (N - 2)));
      try reflexivity; try lia.
    destruct c; cbn; lia. }
  rewrite <- E, Z.land_ones by lia. apply Z.mod_pos_bound.
  apply Z.pow_pos_nonneg; lia.
Qed.

Lemma getPointer_tagged (v tag : Z) :
  0 <= tag < 2 ^ (N - 2) ->
  PointerIntPair.getPointer W N (Z.lor v tag) = PointerIntPair.getPointer W N v.
Proof.
  intros Ht. pose proof (layout W N A ok) as Ly.
  unfold PointerIntPair.getPointer. apply Z.bits_inj'. intros j Hj.
  rewrite !Z.land_spec, Z.lor_spec, (testbit_PointerBitMask W N Ly j Hj).
  destruct (Z.leb_spec N j); [| now rewrite !andb_false_r].
  rewrite (testbit_small (N - 2) tag j) by lia. now rewrite orb_false_r.
Qed.

Lemma getInt_tagged (v tag : Z) :
  0 <= tag < 2 ^ (N - 2) ->
  PointerIntPair.getInt W N (Z.lor v tag) = PointerIntPair.getInt W N v.
Proof.
  intros Ht. pose proof (layout W N A ok) as Ly.
  unfold PointerIntPair.getInt, PointerIntPair.IntShift, PointerIntPair.IntBits.
  apply Z.bits_inj'. intros j Hj.
  rewrite !Z.land_spec, !Z.shiftr_spec, Z.lor_spec by lia.
  rewrite (testbit_small (N - 2) tag (j + (N - 2))) by lia.
  now rewrite orb_false_r.
Qed.

(** X6.  The low bits that [PointerLikeTypeTraits<SILType>] advertises are
    free: the void pointer of a handle is a machine word whose
    [NumLowBitsAvailable] low bits are zero, and it gives the handle back.
    A tag stored in those bits is read back, is masked off again, and
    changes neither the AST type nor the category that the accessors read. *)
Theorem low_bits_available (h : SILType) (tag : Z) :
  is_handle h ->
  0 <= tag < 2 ^ SILType_NumLowBitsAvailable N ->
  let P := getAsVoidPointer h in
  0 <= P < 2 ^ W /\
  Z.land P (Z.ones (SILType_NumLowBitsAvailable N)) = 0 /\
  getFromVoidPointer P = h /\
  Z.land (Z.lor P tag) (Z.ones (SILType_NumLowBitsAvailable N)) = tag /\
  Z.ldiff (Z.lor P tag) (Z.ones (SILType_NumLowBitsAvailable N)) = P /\
  getASTType (getFromVoidPointer (Z.lor P tag)) = getASTType h /\
  getCategory (getFromVoidPointer (Z.lor P tag)) = getCategory h.
Proof.
  intros H Ht. pose proof (layout W N A ok) as Ly.
  destruct (handle_cases h H) as (t & c & L & ->).
  unfold SILType_NumLowBitsAvailable, PointerIntPair.IntBits in *.
  unfold getAsVoidPointer, getFromVoidPointer, getOpaqueValue,
    getFromOpaqueValue.
  set (v := value (encoded t c)).
  assert (Lo : forall j, 0 <= j < N - 2 -> Z.testbit v j = false)
    by (intros j Hj; now apply encoded_low).
  cbv zeta. split; [now apply encoded_word |]. split; [| split; [| split; [| split; [| split]]]].
  - apply Z.bits_inj'. intros j Hj.
    rewrite Z.land_spec, Z.testbit_ones_nonneg, Z.bits_0 by lia.
    destruct (Z.ltb_spec j (N - 2)); [rewrite Lo by lia |];
      now rewrite ?andb_false_r.
  - reflexivity.
  - apply Z.bits_inj'. intros j Hj.
    rewrite Z.land_spec, Z.lor_spec, Z.testbit_ones_nonneg by lia.
    destruct (Z.ltb_spec j (N - 2)).
    + rewrite Lo by lia. cbn. apply andb_true_r.
    + rewrite (testbit_small (N - 2) tag j) by lia. apply andb_false_r.
  - apply Z.bits_inj'. intros j Hj.
    rewrite Z.ldiff_spec, Z.lor_spec, Z.testbit_ones_nonneg by lia.
    destruct (Z.ltb_spec j (N - 2)).
    + rewrite Lo by lia. cbn. apply andb_false_r.
    + rewrite (testbit_small (N - 2) tag j) by lia. cbn.
      now rewrite orb_false_r, andb_true_r.
  - unfold SIL.getASTType. cbn [value]. now apply getPointer_tagged.
  - unfold SIL.getCategory. cbn [value]. now rewrite getInt_tagged.
Qed.

(** *** The handle as a key of a hash map *)

Variables PointerMapInfo_getEmptyKey PointerMapInfo_getTombstoneKey : Z.

(** X8.  A word whose pointer part is neither null nor the address of a
    node is the word of no handle.  So when the two sentinel keys of the
    pointer map are distinct such words, the empty key and the tombstone
    key are distinct and neither is equal to any handle. *)
Theorem sentinel_keys_are_no_handles (h : SILType) :
  PointerMapInfo_getEmptyKey <> PointerMapInfo_getTombstoneKey ->
  PointerIntPair.getPointer W N PointerMapInfo_getEmptyKey <> null ->
  deref A (PointerIntPair.getPointer W N PointerMapInfo_getEmptyKey) = None ->
  PointerIntPair.getPointer W N PointerMapInfo_getTombstoneKey <> null ->
  deref A (PointerIntPair.getPointer W N PointerMapInfo_getTombstoneKey)
    = None ->
  is_handle h ->
  isEqual (getEmptyKey PointerMapInfo_getEmptyKey)
          (getTombstoneKey PointerMapInfo_getTombstoneKey) = false /\
  isEqual h (getEmptyKey PointerMapInfo_getEmptyKey) = false /\
  isEqual h (getTombstoneKey PointerMapInfo_getTombstoneKey) = false /\
  ~ is_handle (getEmptyKey PointerMapInfo_getEmptyKey) /\
  ~ is_handle (getTombstoneKey PointerMapInfo_getTombstoneKey).
Proof.
  intros NE En Ed Tn Td H.
  assert (F : forall P, PointerIntPair.getPointer W N P <> null ->
                        deref A (PointerIntPair.getPointer W N P) = None ->
                        ~ is_handle (getFromOpaqueValue P)).
  { intros P Pn Pd HP. apply (is_handle_lowered W N A ok) in HP.
    unfold SIL.getASTType, getFromOpaqueValue in HP. cbn [value] in HP.
    destruct HP as [HP | [HP _]]; contradiction. }
  assert (G : forall P, ~ is_handle (getFromOpaqueValue P) ->
                        isEqual h (getFromOpaqueValue P) = false).
  { intros P HP. apply not_true_iff_false. unfold isEqual.
    rewrite operator_eq_true. intros E. apply HP. now rewrite <- E. }
  unfold getEmptyKey, getTombstoneKey.
  split; [| auto].
  apply not_true_iff_false. unfold isEqual. rewrite operator_eq_true.
  unfold getFromOpaqueValue. congruence.
Qed.

(** *** Casts to function types *)

(** X9.  On a handle whose type is a node, [is<SILFunctionType>()] is true
    exactly on a function type, and then [getAs], [castTo] and
    [getFunctionRepresentation] all give its representation; on any other
    node [getAs] gives null and the assertion of [castTo] fails.  On a
    handle whose type is no node, the null handle for one, none of them
    returns. *)
Theorem function_type_casts_agree (h : SILType) :
  (forall node, deref A (getASTType h) = Some node ->
     exists b,
       is_SILFunctionType W N A h = Some b /\
       (b = true <-> exists Rep, node = SILFunctionType Rep) /\
       (forall Rep, node = SILFunctionType Rep ->
          SIL.getAs_SILFunctionType W N A h = Some (Some Rep) /\
          castTo_SILFunctionType W N A h = Some Rep /\
          getFunctionRepresentation W N A h = Some Rep) /\
       (b = false ->
          SIL.getAs_SILFunctionType W N A h = Some None /\
          castTo_SILFunctionType W N A h = None /\
          getFunctionRepresentation W N A h = None)) /\
  (deref A (getASTType h) = None ->
     is_SILFunctionType W N A h = None /\
     SIL.getAs_SILFunctionType W N A h = None /\
     castTo_SILFunctionType W N A h = None /\
     getFunctionRepresentation W N A h = None).
Proof.
  unfold is_SILFunctionType, SIL.getAs_SILFunctionType,
    AST.getAs_SILFunctionType, getFunctionRepresentation,
    castTo_SILFunctionType.
  split.
  - intros node D. rewrite D. cbn [obind].
    destruct node as [Rep | T | I | Decl | id].
    1: { exists true. split; [reflexivity |]. split; [| split].
         - split; eauto.
         - intros R [= <-]. auto.
         - discriminate. }
    all: exists false; split; [reflexivity |]; split; [| split];
      [ split; [discriminate | intros [R [=]]] | discriminate | auto ].
  - intros D. rewrite D. auto.
Qed.

Variable getOptionalObjectType : SILType -> option SILType.
Hypothesis getOptionalObjectType_ok :
  getOptionalObjectType_documented PtrBits NumLowBitsAvailable A
    getOptionalObjectType.

(** X10.  On a handle of a function type, [isBlockPointerCompatible] says
    whether [getFunctionRepresentation] is [Block]. *)
Theorem isBlockPointerCompatible_of_function
  (h : SILType) (Rep : SILFunctionTypeRepresentation) :
  getFunctionRepresentation W N A h = Some Rep ->
  isBlockPointerCompatible W N A getOptionalObjectType h
    = Some (Representation_eqb Rep Block).
Proof.
  unfold getFunctionRepresentation, castTo_SILFunctionType.
  destruct (deref A (getASTType h)) as [node |] eqn:D; [| discriminate].
  cbn [obind]. intros E.
  rewrite (isBlockPointerCompatible_eq W N A ok getOptionalObjectType
             getOptionalObjectType_ok h node D).
  destruct node; try discriminate. now injection E as ->.
Qed.

(** X11.  [isBlockPointerCompatible] does not depend on the category: it
    answers on every category variant of a handle as on the handle. *)
Theorem isBlockPointerCompatible_any_category
  (h r : SILType) (c : SILValueCategory) (node : TypeBase) :
  deref A (getASTType h) = Some node ->
  getCategoryType h c = Some r ->
  isBlockPointerCompatible W N A getOptionalObjectType r
    = isBlockPointerCompatible W N A getOptionalObjectType h.
Proof.
  intros D G.
  destruct (getCategoryType_getASTType W N A ok h r c G) as [E _].
  rewrite (isBlockPointerCompatible_eq W N A ok getOptionalObjectType
             getOptionalObjectType_ok h node D).
  rewrite <- E in D.
  now rewrite (isBlockPointerCompatible_eq W N A ok getOptionalObjectType
                 getOptionalObjectType_ok r node D).
Qed.

(** *** Classes and metatypes *)

(** X12.  The static [isClassOrClassMetatype] returns on every node of the
    arena, and returns true exactly on a class and on the metatype of a
    class; it looks through one metatype only, so on the metatype of a
    metatype it returns false. *)
Theorem isClassOrClassMetatype_of_iff (t : CanType) (node : TypeBase) :
  deref A t = Some node ->
  exists b,
    isClassOrClassMetatype_of A t = Some b /\
    (b = true <->
     (exists Decl, node = ClassType Decl /\ Decl <> 0) \/
     (exists I Decl, node = AnyMetatypeType I /\
                     deref A I = Some (ClassType Decl) /\ Decl <> 0)) /\
    (forall I I', node = AnyMetatypeType I ->
                  deref A I = Some (AnyMetatypeType I') -> b = false).
Proof.
  intros D. unfold isClassOrClassMetatype_of, AST.getClassOrBoundGenericClass.
  rewrite D. cbn [obind].
  pose proof (deref_closed _ _ _ ok _ _ D) as C.
  assert (Z0 : forall d, negb (d =? 0) = true <-> d <> 0).
  { intros d. rewrite negb_true_iff. apply Z.eqb_neq. }
  destruct node as [Rep | T | I | Decl | id]; rewrite ?D; cbn [obind].
  3: { cbn in C. destruct (deref A I) as [nodeI |] eqn:DI; [| contradiction].
       cbn [obind]. eexists. split; [reflexivity |]. split; [split |].
       - intros B. right. destruct nodeI; try discriminate.
         exists I, Decl. now rewrite <- Z0.
       - intros [(Decl & [=] & _) | (I0 & Decl & [= <-] & DI0 & Nz)].
         rewrite DI in DI0. injection DI0 as ->. now apply Z0.
       - intros I0 I' [= <-] DI0. rewrite DI in DI0. injection DI0 as ->.
         reflexivity. }
  3: { eexists. split; [reflexivity |]. split; [split |].
       - intros B. left. exists Decl. now rewrite <- Z0.
       - intros [(Decl0 & [= <-] & Nz) | (I & Decl0 & [=] & _)].
         now apply Z0.
       - discriminate. }
  all: exists false; split; [reflexivity |]; split;
    [ split; [discriminate | intros [(Decl & [=] & _) | (I & Decl & [=] & _)]]
    | discriminate ].
Qed.

(** *** Members that forward to the AST *)

Variable TypeBase_getSuperclass : CanType -> Z.
Variable TypeBase_getCanonicalType : Z -> CanType.
Variable CanType_getReferenceStorageReferent : CanType -> CanType.
Variable TupleType_getElementTypes : CanType -> option (list CanType).
Variable TypeBase_isExactSuperclassOf : CanType -> CanType -> bool.
Variable TypeBase_isBindableToSuperclassOf : CanType -> CanType -> bool.

Lemma handle_category (h : SILType) :
  is_handle h -> exists c, getCategory h = Some c.
Proof.
  intros H. destruct (is_handle_encoded W N A ok h H) as (t & c & _ & _ & _ & K).
  eauto.
Qed.

(** X13.  [getTupleElementType(i)] on a non-null handle: it fails on a type
    that is no tuple and on an index past the last element; on the [i]-th
    element [e] of a tuple, a legal SIL type, it returns the handle of [e]
    in the category of the tuple. *)
Theorem getTupleElementType_category (h : SILType) (index : nat) :
  is_handle h ->
  deref A (getASTType h) <> None ->
  (TupleType_getElementTypes (getASTType h) = None ->
   getTupleElementType W N A TupleType_getElementTypes h index = None) /\
  (forall elements,
     TupleType_getElementTypes (getASTType h) = Some elements ->
     ((length elements <= index)%nat ->
      getTupleElementType W N A TupleType_getElementTypes h index = None) /\
     (forall e, nth_error elements index = Some e -> lowered A e ->
        exists r,
          getTupleElementType W N A TupleType_getElementTypes h index
            = Some r /\
          getASTType r = e /\
          getCategory r = getCategory h)).
Proof.
  intros H D. unfold getTupleElementType.
  destruct (deref A (getASTType h)) as [node |]; [| contradiction].
  cbn [obind]. split.
  - now intros ->.
  - intros elements ->. cbn [obind]. split.
    + intros Hi. apply nth_error_None in Hi. now rewrite Hi.
    + intros e -> L. cbn [obind].
      destruct (handle_category h H) as [c ->]. cbn [obind].
      rewrite new_lowered by exact L.
      exists (encoded e c). split; [reflexivity |].
      split; [now apply ast_encoded | now apply cat_encoded].
Qed.

(** X14.  [getReferenceStorageReferentType] on a non-null handle returns
    the handle of the referent in the category of the receiver; where the
    type is its own referent, it returns the receiver. *)
Theorem getReferenceStorageReferentType_category (h : SILType) :
  is_handle h ->
  deref A (getASTType h) <> None ->
  lowered A (CanType_getReferenceStorageReferent (getASTType h)) ->
  exists r,
    getReferenceStorageReferentType W N A
      CanType_getReferenceStorageReferent h = Some r /\
    getASTType r = CanType_getReferenceStorageReferent (getASTType h) /\
    getCategory r = getCategory h /\
    (CanType_getReferenceStorageReferent (getASTType h) = getASTType h ->
     r = h).
Proof.
  intros H D L. unfold getReferenceStorageReferentType.
  destruct (deref A (getASTType h)) as [node |]; [| contradiction].
  cbn [obind].
  destruct (is_handle_encoded W N A ok h H) as (t & c & Lt & Eh & T & K).
  rewrite K. cbn [obind]. rewrite new_lowered by exact L.
  eexists. split; [reflexivity |].
  split; [now apply ast_encoded |]. split; [now apply cat_encoded |].
  intros E. rewrite E, T. now symmetry.
Qed.

(** X15.  [getSuperclass] on a non-null handle: the default handle when the
    type has no superclass, and otherwise the object handle of the canonical
    superclass, whatever the category of the receiver; it answers on every
    category variant of the receiver as on the receiver. *)
Theorem getSuperclass_object (h : SILType) :
  is_handle h ->
  deref A (getASTType h) <> None ->
  (TypeBase_getSuperclass (getASTType h) = 0 ->
   SIL.getSuperclass W N A TypeBase_getSuperclass TypeBase_getCanonicalType h
     = Some SILType_default) /\
  (TypeBase_getSuperclass (getASTType h) <> 0 ->
   lowered A (TypeBase_getCanonicalType (TypeBase_getSuperclass (getASTType h))) ->
   exists r,
     SIL.getSuperclass W N A TypeBase_getSuperclass TypeBase_getCanonicalType h
       = Some r /\
     getASTType r
       = TypeBase_getCanonicalType (TypeBase_getSuperclass (getASTType h)) /\
     getCategory r = Some Object) /\
  (forall c r,
     getCategoryType h c = Some r ->
     SIL.getSuperclass W N A TypeBase_getSuperclass TypeBase_getCanonicalType r
     = SIL.getSuperclass W N A TypeBase_getSuperclass TypeBase_getCanonicalType h).
Proof.
  intros H D. unfold SIL.getSuperclass.
  split; [| split].
  - destruct (deref A (getASTType h)); [| contradiction].
    cbn [obind]. now intros ->.
  - destruct (deref A (getASTType h)); [| contradiction].
    cbn [obind]. intros Nz L. apply Z.eqb_neq in Nz. rewrite Nz.
    unfold getPrimitiveObjectType. rewrite new_lowered by exact L.
    eexists. split; [reflexivity |].
    split; [now apply ast_encoded | now apply cat_encoded].
  - intros c r G.
    destruct (getCategoryType_getASTType W N A ok h r c G) as [E _].
    now rewrite E.
Qed.

(** X16.  The two superclass tests look at the AST types only: they answer
    on any category variants of the two handles as on the handles. *)
Theorem superclass_tests_ignore_category
  (h Ty h' Ty' : SILType) (c c' : SILValueCategory) :
  getCategoryType h c = Some h' ->
  getCategoryType Ty c' = Some Ty' ->
  isExactSuperclassOf W N A TypeBase_isExactSuperclassOf h' Ty'
    = isExactSuperclassOf W N A TypeBase_isExactSuperclassOf h Ty /\
  isBindableToSuperclassOf W N A TypeBase_isBindableToSuperclassOf h' Ty'
    = isBindableToSuperclassOf W N A TypeBase_isBindableToSuperclassOf h Ty.
Proof.
  intros G G'.
  destruct (getCategoryType_getASTType W N A ok h h' c G) as [E _].
  destruct (getCategoryType_getASTType W N A ok Ty Ty' c' G') as [E' _].
  unfold isExactSuperclassOf, isBindableToSuperclassOf.
  now rewrite E, E'.
Qed.

(** *** Handles built by other classes *)

Variable SILField : Type.
Variable SILField_getLoweredType : SILField -> CanType.

(** X17.  The address type and the object type of a field whose lowered
    type is a legal SIL type are the address handle and the object handle of
    that type, and each is the variant of the other. *)
Theorem SILField_types (field : SILField) :
  lowered A (SILField_getLoweredType field) ->
  exists a o,
    SILField_getAddressType W N A SILField SILField_getLoweredType field
      = Some a /\
    SILField_getObjectType W N A SILField SILField_getLoweredType field
      = Some o /\
    getASTType a = SILField_getLoweredType field /\
    getASTType o = SILField_getLoweredType field /\
    isAddress a = true /\
    isObject o = true /\
    getAddressType W N A o = Some a /\
    getObjectType W N A a = Some o.
Proof.
  intros L. set (t := SILField_getLoweredType field) in *.
  exists (encoded t Address), (encoded t Object).
  unfold SILField_getAddressType, SILField_getObjectType,
    getPrimitiveAddressType, getPrimitiveObjectType, getAddressType,
    getObjectType.
  fold t. rewrite !ast_encoded by exact L. rewrite !new_lowered by exact L.
  destruct (isAddress_encoded t Address L) as [-> _].
  destruct (isAddress_encoded t Object L) as [_ ->].
  repeat split.
Qed.

Variable SILBlockStorageType : Type.
Variable SILBlockStorageType_getCaptureType : SILBlockStorageType -> CanType.
Variable SILBoxType : Type.
Variable TypeConverter : Type.
Variable getSILBoxFieldLoweredType :
  SILBoxType -> TypeConverter -> nat -> CanType * TypeConverter.

(** X18.  The type of a box field and the capture address type of a block
    storage are address handles: of the lowered field type, with the type
    converter that the lowering leaves behind, and of the capture type.
    Where the lowered field type is a non-null type that is no legal SIL
    type, no handle is built. *)
Theorem box_field_and_capture_are_addresses
  (box : SILBoxType) (TC : TypeConverter) (index : nat)
  (storage : SILBlockStorageType) :
  let lowered_field := fst (getSILBoxFieldLoweredType box TC index) in
  let result :=
    getSILBoxFieldType W N A SILBoxType TypeConverter
      getSILBoxFieldLoweredType box TC index in
  snd result = snd (getSILBoxFieldLoweredType box TC index) /\
  (lowered A lowered_field ->
   exists r, fst result = Some r /\
             isAddress r = true /\ getASTType r = lowered_field) /\
  (~ lowered A lowered_field -> fst result = None) /\
  (lowered A (SILBlockStorageType_getCaptureType storage) ->
   exists r,
     SILBlockStorageType_getCaptureAddressType W N A SILBlockStorageType
       SILBlockStorageType_getCaptureType storage = Some r /\
     isAddress r = true /\
     getASTType r = SILBlockStorageType_getCaptureType storage).
Proof.
  unfold getSILBoxFieldType, SILBlockStorageType_getCaptureAddressType,
    getPrimitiveAddressType.
  destruct (getSILBoxFieldLoweredType box TC index) as [t TC'].
  cbn [fst snd]. split; [reflexivity |].
  assert (B : forall t, lowered A t ->
                exists r, SILType_new t Address = Some r /\
                          isAddress r = true /\ getASTType r = t).
  { intros t0 L. exists (encoded t0 Address).
    rewrite new_lowered by exact L.
    destruct (isAddress_encoded t0 Address L) as [-> _].
    auto using ast_encoded. }
  split; [apply B |]. split; [| apply B].
  intros NL. destruct (SILType_new t Address) as [r |] eqn:E; [| reflexivity].
  apply new_inv in E. destruct E as [L _]. contradiction.
Qed.

(** *** Null handles *)

(** X19.  Each of the thirteen structural predicates dereferences the type:
    on a null handle none of them returns, and on a non-null handle each
    returns the answer of the AST query on the type of the handle. *)
Theorem predicates_need_a_type (h : SILType) :
  is_handle h ->
  let predicates :=
    [ (SIL.isVoid W N A, AST.isVoid A);
      (SIL.isAnyObject W N A, AST.isAnyObject A);
      (SIL.hasReferenceSemantics W N A, AST.hasReferenceSemantics A);
      (SIL.isAnyClassReferenceType W N A, AST.isAnyClassReferenceType A);
      (SIL.hasRetainablePointerRepresentation W N A,
       AST.hasRetainablePointerRepresentation A);
      (SIL.isExistentialType W N A, AST.isExistentialType A);
      (SIL.isAnyExistentialType W N A, AST.isAnyExistentialType A);
      (SIL.isClassExistentialType W N A, AST.isClassExistentialType A);
      (SIL.isOpenedExistential W N A, AST.isOpenedExistential A);
      (SIL.hasOpenedExistential W N A, AST.hasOpenedExistential A);
      (SIL.hasTypeParameter W N A, AST.hasTypeParameter A);
      (SIL.hasArchetype W N A, AST.hasArchetype A);
      (SIL.isBridgeableObjectType W N A, AST.isBridgeableObjectType A) ] in
  (isNull h = true ->
   Forall (fun p => fst p h = None) predicates) /\
  (isNull h = false ->
   Forall (fun p => fst p h = Some (snd p (getASTType h))) predicates).
Proof.
  intros H predicates. subst predicates.
  pose proof (is_handle_lowered W N A ok h H) as L.
  unfold SIL.isNull. fold (getASTType h).
  split; intros E.
  - apply Z.eqb_eq in E.
    repeat constructor; cbn [fst snd];
      unfold SIL.isVoid, SIL.isAnyObject, SIL.hasReferenceSemantics,
        SIL.isAnyClassReferenceType, SIL.hasRetainablePointerRepresentation,
        SIL.isExistentialType, SIL.isAnyExistentialType,
        SIL.isClassExistentialType, SIL.isOpenedExistential,
        SIL.hasOpenedExistential, SIL.hasTypeParameter, SIL.hasArchetype,
        SIL.isBridgeableObjectType;
      fold (getASTType h); unfold call;
      rewrite E, (deref_null _ _ _ ok); reflexivity.
  - apply Z.eqb_neq in E. destruct L as [L | [D _]]; [contradiction |].
    destruct (deref A (getASTType h)) eqn:Dh; [| contradiction].
    repeat constructor; cbn [fst snd];
      unfold SIL.isVoid, SIL.isAnyObject, SIL.hasReferenceSemantics,
        SIL.isAnyClassReferenceType, SIL.hasRetainablePointerRepresentation,
        SIL.isExistentialType, SIL.isAnyExistentialType,
        SIL.isClassExistentialType, SIL.isOpenedExistential,
        SIL.hasOpenedExistential, SIL.hasTypeParameter, SIL.hasArchetype,
        SIL.isBridgeableObjectType;
      fold (getASTType h); unfold call; rewrite Dh; reflexivity.
Qed.

End MoreHandleFacts.

(** ** More on the persistent parser state *)

Section MoreParseFacts.

Import Parse.

Variables SavedScope ScopeInfoTy TopLevelContext : Type.

Local Abbreviation State :=
  (PersistentParserState SavedScope ScopeInfoTy TopLevelContext).
Local Abbreviation Call := (Parse.Call ScopeInfoTy TopLevelContext).

Lemma run_app (cs cs' : list Call) (this : State) :
  run (cs ++ cs') this = run cs' (run cs this).
Proof.
  revert this. induction cs as [| c cs IH]; intros this; [reflexivity |].
  cbn [app run]. apply IH.
Qed.

(** X20.  No inline member writes to [PerformConditionEvaluation], to the
    delayed function bodies or to the delayed declaration lists: after any
    sequence of calls, stores through the references that [getScopeInfo()]
    and [getTopLevelContext()] hand out included, they are what they were.
    The scope info and the top-level context change through those
    references only: the scope info is what it was after any sequence of
    calls in which every caller of [getScopeInfo()] stores back what it
    read, and so is the top-level context with [getTopLevelContext()]. *)
Theorem inline_members_frame (cs : list Call) (this : State) :
  PerformConditionEvaluation (run cs this) = PerformConditionEvaluation this /\
  DelayedFunctionBodies (run cs this) = DelayedFunctionBodies this /\
  DelayedDeclLists (run cs this) = DelayedDeclLists this /\
  ((forall use, In (GetScopeInfo use) cs -> forall v, use v = v) ->
   ScopeInfo (run cs this) = ScopeInfo this) /\
  ((forall use, In (GetTopLevelContext use) cs -> forall v, use v = v) ->
   TopLevelCode (run cs this) = TopLevelCode this).
Proof.
  revert this. induction cs as [| c cs IH]; intros this;
    [repeat split; reflexivity |].
  cbn [run]. destruct (IH (after c this)) as (-> & -> & -> & Sc & Tl).
  split; [destruct c; reflexivity |].
  split; [destruct c; reflexivity |].
  split; [destruct c; reflexivity |].
  split; intros U.
  - rewrite Sc by (intros use Hin; apply U; now right).
    destruct c; try reflexivity. cbn. apply U. now left.
  - rewrite Tl by (intros use Hin; apply U; now right).
    destruct c; try reflexivity. cbn. apply U. now left.
Qed.

Lemma after_slot_kept (c : Call) (this : State) :
  c <> TakeDelayedDeclState ->
  CodeCompletionDelayedDeclState (after c this)
  = CodeCompletionDelayedDeclState this.
Proof. destruct c; cbn; congruence. Qed.

Lemma run_slot_kept (cs : list Call) (this : State) :
  ~ In TakeDelayedDeclState cs ->
  CodeCompletionDelayedDeclState (run cs this)
  = CodeCompletionDelayedDeclState this.
Proof.
  revert this. induction cs as [| c cs IH]; intros this Hn; [reflexivity |].
  cbn [run]. rewrite IH by (intros Hc; apply Hn; now right).
  apply after_slot_kept. intros ->. apply Hn. now left.
Qed.

Lemma run_slot_empty (cs : list Call) (this : State) :
  CodeCompletionDelayedDeclState this = None ->
  CodeCompletionDelayedDeclState (run cs this) = None.
Proof.
  revert this. induction cs as [| c cs IH]; intros this E; [exact E |].
  cbn [run]. apply IH. destruct c; cbn; congruence.
Qed.

(** X21.  The pending declaration is handed out once.  Calls other than
    [takeDelayedDeclState] keep it in the slot, the first
    [takeDelayedDeclState] returns it, and from then on, after any calls,
    the slot is empty: [hasDelayedDecl] is false and
    [takeDelayedDeclState] returns null. *)
Theorem delayed_decl_taken_once (cs cs' : list Call) (this : State) :
  ~ In TakeDelayedDeclState cs ->
  fst (takeDelayedDeclState (run cs this))
  = CodeCompletionDelayedDeclState this /\
  fst (hasDelayedDecl (run cs' (snd (takeDelayedDeclState (run cs this)))))
  = false /\
  fst (takeDelayedDeclState
         (run cs' (snd (takeDelayedDeclState (run cs this)))))
  = None.
Proof.
  intros Hn. split; [now apply run_slot_kept |].
  assert (E : CodeCompletionDelayedDeclState
                (run cs' (snd (takeDelayedDeclState (run cs this)))) = None)
    by now apply run_slot_empty.
  cbn [hasDelayedDecl takeDelayedDeclState fst]. now rewrite E.
Qed.

Lemma position_quiet_cons (c : Call) (cs : list Call) :
  position_quiet (c :: cs) -> touches_position c = false /\ position_quiet cs.
Proof.
  unfold position_quiet. cbn [forallb].
  rewrite andb_true_iff, negb_true_iff. auto.
Qed.

Lemma run_position_quiet (cs : list Call) (this : State) :
  position_quiet cs ->
  MarkedPos (run cs this) = MarkedPos this /\
  InPoundLineEnvironment (run cs this) = InPoundLineEnvironment this.
Proof.
  revert this. induction cs as [| c cs IH]; intros this Q; [now split |].
  apply position_quiet_cons in Q. destruct Q as [Hc Q]. cbn [run].
  destruct (IH (after c this) Q) as [-> ->].
  destruct c; cbn in *; try discriminate; now split.
Qed.

(** X22.  The last mark wins: after any calls, a [markParserPosition(P, b)]
    and then calls that neither mark nor take the position, the marked
    position is [P], the flag is [b], and [takeParserPosition] returns
    [P]. *)
Theorem last_mark_wins
  (cs cs' : list Call) (P : ParserPosition) (b : bool) (this : State) :
  position_quiet cs' ->
  let final := run (cs ++ MarkParserPosition P b :: cs') this in
  MarkedPos final = P /\
  InPoundLineEnvironment final = b /\
  fst (takeParserPosition final) = P.
Proof.
  intros Q final. subst final. rewrite run_app. cbn [run].
  destruct (run_position_quiet cs' (after (MarkParserPosition P b) (run cs this)) Q)
    as [M F].
  cbn [takeParserPosition fst]. rewrite M, F. repeat split.
Qed.

(** X23.  The two takes are independent: taking the pending declaration and
    taking the marked position give the same two results and leave the same
    object in either order. *)
Theorem takes_commute (this : State) :
  let decl_first := takeParserPosition (snd (takeDelayedDeclState this)) in
  let position_first := takeDelayedDeclState (snd (takeParserPosition this)) in
  fst (takeDelayedDeclState this) = fst position_first /\
  fst decl_first = fst (takeParserPosition this) /\
  snd decl_first = snd position_first.
Proof. repeat split. Qed.

(** X24.  While a declaration built by the constructor of
    [DelayedDeclState] is pending, the getters read its kind, the start of
    its body range and its parent context, [takeDelayedDeclState] hands out
    a state whose body ends at the end of the range and whose position is
    valid exactly when the start of the range is; the getters and
    [hasDelayedDecl] leave the object as it is.  On an empty slot
    [hasDelayedDecl] is false and no getter returns. *)
Theorem pending_decl_getters
  (this : State) (K : DelayedDeclKind) (F Ctx : Z) (R : SourceRange)
  (Prev : SourceLoc) (Sc : SavedScope) :
  (CodeCompletionDelayedDeclState this
   = Some (DelayedDeclState_new K F Ctx R Prev Sc) ->
   fst (hasDelayedDecl this) = true /\
   fst (getDelayedDeclKind this) = Some K /\
   fst (getDelayedDeclLoc this) = Some (Start R) /\
   fst (getDelayedDeclContext this) = Some Ctx /\
   option_map (@BodyEnd SavedScope) (fst (takeDelayedDeclState this))
   = Some (End R) /\
   option_map (fun d : DelayedDeclState SavedScope =>
                 ParserPos_isValid (BodyPos d))
     (fst (takeDelayedDeclState this))
   = Some (SourceLoc_isValid (Start R))) /\
  (CodeCompletionDelayedDeclState this = None ->
   fst (hasDelayedDecl this) = false /\
   fst (getDelayedDeclKind this) = None /\
   fst (getDelayedDeclLoc this) = None /\
   fst (getDelayedDeclContext this) = None) /\
  snd (hasDelayedDecl this) = this /\
  snd (getDelayedDeclKind this) = this /\
  snd (getDelayedDeclLoc this) = this /\
  snd (getDelayedDeclContext this) = this.
Proof.
  split; [| split].
  - intros E. cbn. rewrite E. cbn. repeat split.
  - intros E. cbn. rewrite E. repeat split.
  - repeat split.
Qed.

End MoreParseFacts.

(** ** The further theorems at the small inputs *)

Section MoreDemoFacts.

Import AST SIL.

Local Abbreviation W := Demo.PtrBits.
Local Abbreviation N := Demo.NumLowBitsAvailable.

Ltac each_address p :=
  match goal with
  | |- context [p =? ?q] => destruct (Z.eqb_spec p q) as [-> | _]
  end.

Lemma Hierarchy_arena_ok : arena_ok W N Hierarchy.arena.
Proof.
  split.
  - unfold W, N, Demo.PtrBits, Demo.NumLowBitsAvailable. lia.
  - reflexivity.
  - intros p node. cbn [deref Hierarchy.arena Hierarchy.nodes Demo.lookup].
    repeat (each_address p;
            [intros _; split; [vm_compute; split; congruence | reflexivity] |]).
    discriminate.
  - intros p node. cbn [deref Hierarchy.arena Hierarchy.nodes Demo.lookup].
    repeat (each_address p; [intros [= <-]; exact I |]).
    discriminate.
Qed.

Lemma Hierarchy_handles :
  is_handle W N Hierarchy.arena Hierarchy.Derived_object /\
  is_handle W N Hierarchy.arena Hierarchy.Derived_address /\
  is_handle W N Hierarchy.arena Hierarchy.Pair_address /\
  is_handle W N Hierarchy.arena Hierarchy.WeakDerived_address.
Proof.
  split; [exists Hierarchy.Derived, Object; reflexivity |].
  split; [exists Hierarchy.Derived, Address; reflexivity |].
  split; [exists Hierarchy.Pair, Address; reflexivity |].
  exists Hierarchy.WeakDerived, Address; reflexivity.
Qed.

Lemma Hierarchy_lowered (t : CanType) :
  deref Hierarchy.arena t <> None -> lowered Hierarchy.arena t.
Proof. intros D. right. split; [exact D | reflexivity]. Qed.

Lemma getPrimitiveType_succeeds_iff_witness :
  arena_ok W N Demo.arena /\
  12 <> null /\
  deref Demo.arena 12 = None /\
  getPrimitiveType W N Demo.arena 12 Object = None.
Proof.
  split; [exact Demo_arena_ok |]. split; [discriminate |].
  split; [reflexivity |].
  exact (proj2 (proj2 (getPrimitiveType_succeeds_iff W N Demo.arena
                         Demo_arena_ok 12 Object))
           ltac:(discriminate) eq_refl).
Defined.

Lemma handle_invariant_witness :
  arena_ok W N Demo.arena /\
  is_handle W N Demo.arena Demo.Int32_address /\
  ((isNull W N Demo.Int32_address = true /\
    operator_bool W N Demo.Int32_address = false /\
    getASTType W N Demo.Int32_address = null) \/
   (isNull W N Demo.Int32_address = false /\
    operator_bool W N Demo.Int32_address = true /\
    deref Demo.arena (getASTType W N Demo.Int32_address) <> None /\
    isLegalSILType Demo.arena (getASTType W N Demo.Int32_address) = true)).
Proof.
  destruct Demo_handles as (_ & H & _).
  split; [exact Demo_arena_ok |]. split; [exact H |].
  exact (handle_invariant W N Demo.arena Demo_arena_ok Demo.Int32_address H).
Defined.

Lemma isAddress_isObject_exclusive_witness :
  arena_ok W N Demo.arena /\
  is_handle W N Demo.arena Demo.Int32_address /\
  isAddress W N Demo.Int32_address = negb (isObject W N Demo.Int32_address).
Proof.
  destruct Demo_handles as (_ & H & _).
  split; [exact Demo_arena_ok |]. split; [exact H |].
  exact (proj1 (isAddress_isObject_exclusive W N Demo.arena Demo_arena_ok
                  Demo.Int32_address H)).
Defined.

Lemma getCategoryType_own_category_witness :
  arena_ok W N Demo.arena /\
  is_handle W N Demo.arena Demo.Int32_address /\
  exists c,
    getCategory W N Demo.Int32_address = Some c /\
    getCategoryType W N Demo.arena Demo.Int32_address c
      = Some Demo.Int32_address /\
    copyCategory W N Demo.arena Demo.Int32_address Demo.Int32_address
      = Some Demo.Int32_address.
Proof.
  destruct Demo_handles as (_ & H & _).
  split; [exact Demo_arena_ok |]. split; [exact H |].
  exact (getCategoryType_own_category W N Demo.arena Demo_arena_ok
           Demo.Int32_address H).
Defined.

Lemma getCategoryType_injective_witness :
  arena_ok W N Demo.arena /\
  is_handle W N Demo.arena Demo.SomeClass_object /\
  exists r r',
    getCategoryType W N Demo.arena Demo.SomeClass_object Address = Some r /\
    getCategoryType W N Demo.arena Demo.SomeClass_object Object = Some r' /\
    (operator_eq r r' = true <-> Address = Object) /\
    (operator_ne r r' = true <-> Address <> Object).
Proof.
  destruct Demo_handles as (_ & _ & H & _).
  split; [exact Demo_arena_ok |]. split; [exact H |].
  exact (getCategoryType_injective W N Demo.arena Demo_arena_ok
           Demo.SomeClass_object Address Object H).
Defined.

Lemma low_bits_available_witness :
  arena_ok W N Demo.arena /\
  is_handle W N Demo.arena Demo.SomeClass_address /\
  0 <= 1 < 2 ^ SILType_NumLowBitsAvailable N /\
  getASTType W N (getFromVoidPointer (Z.lor 42 1)) = Demo.SomeClass /\
  getCategory W N (getFromVoidPointer (Z.lor 42 1)) = Some Address.
Proof.
  destruct Demo_handles as (_ & _ & _ & H & _).
  assert (T : 0 <= 1 < 2 ^ SILType_NumLowBitsAvailable N)
    by (vm_compute; split; congruence).
  split; [exact Demo_arena_ok |]. split; [exact H |]. split; [exact T |].
  destruct (low_bits_available W N Demo.arena Demo_arena_ok
              Demo.SomeClass_address 1 H T)
    as (_ & _ & _ & _ & _ & E1 & E2).
  split; [exact E1 | exact E2].
Defined.

Lemma sentinel_keys_are_no_handles_witness :
  arena_ok W N Hierarchy.arena /\
  Hierarchy.EmptyKey <> Hierarchy.TombstoneKey /\
  PointerIntPair.getPointer W N Hierarchy.EmptyKey <> null /\
  deref Hierarchy.arena (PointerIntPair.getPointer W N Hierarchy.EmptyKey)
    = None /\
  PointerIntPair.getPointer W N Hierarchy.TombstoneKey <> null /\
  deref Hierarchy.arena (PointerIntPair.getPointer W N Hierarchy.TombstoneKey)
    = None /\
  is_handle W N Hierarchy.arena Hierarchy.Derived_address /\
  isEqual (getEmptyKey Hierarchy.EmptyKey)
          (getTombstoneKey Hierarchy.TombstoneKey) = false /\
  isEqual Hierarchy.Derived_address (getEmptyKey Hierarchy.EmptyKey) = false /\
  isEqual Hierarchy.Derived_address (getTombstoneKey Hierarchy.TombstoneKey)
    = false.
Proof.
  destruct Hierarchy_handles as (_ & H & _).
  assert (K1 : Hierarchy.EmptyKey <> Hierarchy.TombstoneKey) by discriminate.
  assert (K2 : PointerIntPair.getPointer W N Hierarchy.EmptyKey <> null)
    by discriminate.
  assert (K3 : deref Hierarchy.arena
                 (PointerIntPair.getPointer W N Hierarchy.EmptyKey) = None)
    by reflexivity.
  assert (K4 : PointerIntPair.getPointer W N Hierarchy.TombstoneKey <> null)
    by discriminate.
  assert (K5 : deref Hierarchy.arena
                 (PointerIntPair.getPointer W N Hierarchy.TombstoneKey) = None)
    by reflexivity.
  repeat (split; [assumption || exact Hierarchy_arena_ok |]).
  destruct (sentinel_keys_are_no_handles W N Hierarchy.arena
              Hierarchy_arena_ok Hierarchy.EmptyKey Hierarchy.TombstoneKey
              Hierarchy.Derived_address K1 K2 K3 K4 K5 H)
    as (E1 & E2 & E3 & _).
  split; [exact E1 |]. split; [exact E2 | exact E3].
Defined.

Lemma isBlockPointerCompatible_of_function_witness :
  arena_ok W N Demo.arena /\
  getOptionalObjectType_documented W N Demo.arena
    (getOptionalObjectType_plain W N Demo.arena) /\
  getFunctionRepresentation W N Demo.arena Demo.ThickFn_object = Some Thick /\
  isBlockPointerCompatible W N Demo.arena
    (getOptionalObjectType_plain W N Demo.arena) Demo.ThickFn_object
  = Some (Representation_eqb Thick Block).
Proof.
  pose proof (getOptionalObjectType_plain_documented W N Demo.arena
                Demo_arena_ok) as G.
  split; [exact Demo_arena_ok |]. split; [exact G |].
  split; [reflexivity |].
  exact (isBlockPointerCompatible_of_function W N Demo.arena Demo_arena_ok
           (getOptionalObjectType_plain W N Demo.arena) G
           Demo.ThickFn_object Thick eq_refl).
Defined.

Lemma isBlockPointerCompatible_any_category_witness :
  arena_ok W N Demo.arena /\
  getOptionalObjectType_documented W N Demo.arena
    (getOptionalObjectType_plain W N Demo.arena) /\
  deref Demo.arena (getASTType W N Demo.OptionalBlockFn_object)
    = Some (OptionalType Demo.BlockFn) /\
  getCategoryType W N Demo.arena Demo.OptionalBlockFn_object Address
    = Some {| value := 18 |} /\
  isBlockPointerCompatible W N Demo.arena
    (getOptionalObjectType_plain W N Demo.arena) {| value := 18 |}
  = isBlockPointerCompatible W N Demo.arena
      (getOptionalObjectType_plain W N Demo.arena) Demo.OptionalBlockFn_object.
Proof.
  pose proof (getOptionalObjectType_plain_documented W N Demo.arena
                Demo_arena_ok) as G.
  split; [exact Demo_arena_ok |]. split; [exact G |].
  split; [reflexivity |]. split; [reflexivity |].
  exact (isBlockPointerCompatible_any_category W N Demo.arena Demo_arena_ok
           (getOptionalObjectType_plain W N Demo.arena) G
           Demo.OptionalBlockFn_object {| value := 18 |} Address
           (OptionalType Demo.BlockFn) eq_refl eq_refl).
Defined.

Lemma isClassOrClassMetatype_of_iff_witness :
  arena_ok W N Demo.arena /\
  deref Demo.arena Demo.SomeClassMetatype
    = Some (AnyMetatypeType Demo.SomeClass) /\
  exists b, isClassOrClassMetatype_of Demo.arena Demo.SomeClassMetatype
            = Some b.
Proof.
  split; [exact Demo_arena_ok |]. split; [reflexivity |].
  destruct (isClassOrClassMetatype_of_iff W N Demo.arena Demo_arena_ok
              Demo.SomeClassMetatype (AnyMetatypeType Demo.SomeClass) eq_refl)
    as (b & E & _).
  exists b. exact E.
Defined.

Lemma getTupleElementType_category_witness :
  arena_ok W N Hierarchy.arena /\
  is_handle W N Hierarchy.arena Hierarchy.Pair_address /\
  deref Hierarchy.arena (getASTType W N Hierarchy.Pair_address) <> None /\
  (forall elements,
     Hierarchy.getElementTypes (getASTType W N Hierarchy.Pair_address)
       = Some elements ->
     (length elements <= 2)%nat ->
     getTupleElementType W N Hierarchy.arena Hierarchy.getElementTypes
       Hierarchy.Pair_address 2 = None).
Proof.
  destruct Hierarchy_handles as (_ & _ & H & _).
  assert (D : deref Hierarchy.arena (getASTType W N Hierarchy.Pair_address)
              <> None) by discriminate.
  split; [exact Hierarchy_arena_ok |]. split; [exact H |]. split; [exact D |].
  intros elements E.
  exact (proj1 (proj2 (getTupleElementType_category W N Hierarchy.arena
                         Hierarchy_arena_ok Hierarchy.getElementTypes
                         Hierarchy.Pair_address 2 H D) elements E)).
Defined.

Lemma getReferenceStorageReferentType_category_witness :
  arena_ok W N Hierarchy.arena /\
  is_handle W N Hierarchy.arena Hierarchy.WeakDerived_address /\
  deref Hierarchy.arena (getASTType W N Hierarchy.WeakDerived_address)
    <> None /\
  lowered Hierarchy.arena
    (Hierarchy.getReferenceStorageReferent
       (getASTType W N Hierarchy.WeakDerived_address)) /\
  exists r,
    getReferenceStorageReferentType W N Hierarchy.arena
      Hierarchy.getReferenceStorageReferent Hierarchy.WeakDerived_address
      = Some r /\
    getASTType W N r
      = Hierarchy.getReferenceStorageReferent
          (getASTType W N Hierarchy.WeakDerived_address) /\
    getCategory W N r = getCategory W N Hierarchy.WeakDerived_address.
Proof.
  destruct Hierarchy_handles as (_ & _ & _ & H).
  assert (D : deref Hierarchy.arena
                (getASTType W N Hierarchy.WeakDerived_address) <> None)
    by discriminate.
  assert (L : lowered Hierarchy.arena
                (Hierarchy.getReferenceStorageReferent
                   (getASTType W N Hierarchy.WeakDerived_address)))
    by (apply Hierarchy_lowered; discriminate).
  split; [exact Hierarchy_arena_ok |]. split; [exact H |].
  split; [exact D |]. split; [exact L |].
  destruct (getReferenceStorageReferentType_category W N Hierarchy.arena
              Hierarchy_arena_ok Hierarchy.getReferenceStorageReferent
              Hierarchy.WeakDerived_address H D L)
    as (r & E1 & E2 & E3 & _).
  exists r. split; [exact E1 |]. split; [exact E2 | exact E3].
Defined.

Lemma getSuperclass_object_witness :
  arena_ok W N Hierarchy.arena /\
  is_handle W N Hierarchy.arena Hierarchy.Derived_address /\
  deref Hierarchy.arena (getASTType W N Hierarchy.Derived_address) <> None /\
  Hierarchy.getSuperclass (getASTType W N Hierarchy.Derived_address) <> 0 /\
  lowered Hierarchy.arena
    (Hierarchy.getCanonicalType
       (Hierarchy.getSuperclass (getASTType W N Hierarchy.Derived_address))) /\
  exists r,
    SIL.getSuperclass W N Hierarchy.arena Hierarchy.getSuperclass
      Hierarchy.getCanonicalType Hierarchy.Derived_address = Some r /\
    getASTType W N r
      = Hierarchy.getCanonicalType
          (Hierarchy.getSuperclass (getASTType W N Hierarchy.Derived_address)) /\
    getCategory W N r = Some Object.
Proof.
  destruct Hierarchy_handles as (_ & H & _).
  assert (D : deref Hierarchy.arena
                (getASTType W N Hierarchy.Derived_address) <> None)
    by discriminate.
  assert (S : Hierarchy.getSuperclass
                (getASTType W N Hierarchy.Derived_address) <> 0)
    by discriminate.
  assert (L : lowered Hierarchy.arena
                (Hierarchy.getCanonicalType
                   (Hierarchy.getSuperclass
                      (getASTType W N Hierarchy.Derived_address))))
    by (apply Hierarchy_lowered; discriminate).
  split; [exact Hierarchy_arena_ok |]. split; [exact H |].
  split; [exact D |]. split; [exact S |]. split; [exact L |].
  exact (proj1 (proj2 (getSuperclass_object W N Hierarchy.arena
                         Hierarchy_arena_ok Hierarchy.getSuperclass
                         Hierarchy.getCanonicalType
                         Hierarchy.Derived_address H D)) S L).
Defined.

Lemma superclass_tests_ignore_category_witness :
  arena_ok W N Hierarchy.arena /\
  getCategoryType W N Hierarchy.arena {| value := 8 |} Address
    = Some {| value := 10 |} /\
  getCategoryType W N Hierarchy.arena Hierarchy.Derived_address Object
    = Some Hierarchy.Derived_object /\
  isExactSuperclassOf W N Hierarchy.arena Hierarchy.isExactSuperclassOf
    {| value := 10 |} Hierarchy.Derived_object
  = isExactSuperclassOf W N Hierarchy.arena Hierarchy.isExactSuperclassOf
      {| value := 8 |} Hierarchy.Derived_address.
Proof.
  split; [exact Hierarchy_arena_ok |]. split; [reflexivity |].
  split; [reflexivity |].
  exact (proj1 (superclass_tests_ignore_category W N Hierarchy.arena
                  Hierarchy_arena_ok Hierarchy.isExactSuperclassOf
                  Hierarchy.isExactSuperclassOf
                  {| value := 8 |} Hierarchy.Derived_address
                  {| value := 10 |} Hierarchy.Derived_object
                  Address Object eq_refl eq_refl)).
Defined.

Lemma SILField_types_witness :
  arena_ok W N Hierarchy.arena /\
  lowered Hierarchy.arena Hierarchy.Int64 /\
  exists a o,
    SILField_getAddressType W N Hierarchy.arena CanType (fun t => t)
      Hierarchy.Int64 = Some a /\
    SILField_getObjectType W N Hierarchy.arena CanType (fun t => t)
      Hierarchy.Int64 = Some o /\
    getAddressType W N Hierarchy.arena o = Some a /\
    getObjectType W N Hierarchy.arena a = Some o.
Proof.
  assert (L : lowered Hierarchy.arena Hierarchy.Int64)
    by (apply Hierarchy_lowered; discriminate).
  split; [exact Hierarchy_arena_ok |]. split; [exact L |].
  destruct (SILField_types W N Hierarchy.arena Hierarchy_arena_ok
              CanType (fun t => t) Hierarchy.Int64 L)
    as (a & o & E1 & E2 & _ & _ & _ & _ & E3 & E4).
  exists a, o. auto.
Defined.

Lemma box_field_and_capture_are_addresses_witness :
  arena_ok W N Hierarchy.arena /\
  lowered Hierarchy.arena
    (fst (Hierarchy.getSILBoxFieldLoweredType tt 0%nat 1%nat)) /\
  exists r,
    fst (getSILBoxFieldType W N Hierarchy.arena unit nat
           Hierarchy.getSILBoxFieldLoweredType tt 0%nat 1%nat) = Some r /\
    isAddress W N r = true /\
    getASTType W N r
      = fst (Hierarchy.getSILBoxFieldLoweredType tt 0%nat 1%nat).
Proof.
  assert (L : lowered Hierarchy.arena
                (fst (Hierarchy.getSILBoxFieldLoweredType tt 0%nat 1%nat)))
    by (apply Hierarchy_lowered; discriminate).
  split; [exact Hierarchy_arena_ok |]. split; [exact L |].
  exact (proj1 (proj2 (box_field_and_capture_are_addresses W N Hierarchy.arena
                         Hierarchy_arena_ok CanType (fun t => t) unit nat
                         Hierarchy.getSILBoxFieldLoweredType tt 0%nat 1%nat
                         Hierarchy.Int64)) L).
Defined.

Lemma predicates_need_a_type_witness :
  arena_ok W N Demo.arena /\
  is_handle W N Demo.arena Demo.SomeClass_object /\
  isNull W N Demo.SomeClass_object = false /\
  SIL.hasReferenceSemantics W N Demo.arena Demo.SomeClass_object
  = Some (AST.hasReferenceSemantics Demo.arena
            (getASTType W N Demo.SomeClass_object)).
Proof.
  destruct Demo_handles as (_ & _ & H & _).
  split; [exact Demo_arena_ok |]. split; [exact H |].
  split; [reflexivity |].
  pose proof (proj2 (predicates_need_a_type W N Demo.arena Demo_arena_ok
                       Demo.SomeClass_object H) eq_refl) as F.
  inversion F as [| ? ? _ F1]. inversion F1 as [| ? ? _ F2].
  inversion F2 as [| ? ? E _]. exact E.
Defined.

Lemma delayed_decl_taken_once_witness :
  ~ In Parse.TakeDelayedDeclState ParseDemo.early_calls /\
  fst (Parse.takeDelayedDeclState
         (Parse.run ParseDemo.early_calls ParseDemo.state))
  = Some ParseDemo.delayed /\
  fst (Parse.takeDelayedDeclState
         (Parse.run ParseDemo.later_calls
            (snd (Parse.takeDelayedDeclState
                    (Parse.run ParseDemo.early_calls ParseDemo.state)))))
  = None.
Proof.
  assert (Hn : ~ In Parse.TakeDelayedDeclState ParseDemo.early_calls)
    by (intros [E | [E | [E | []]]]; discriminate E).
  split; [exact Hn |].
  destruct (delayed_decl_taken_once unit nat nat ParseDemo.early_calls
              ParseDemo.later_calls ParseDemo.state Hn)
    as (E1 & _ & E3).
  split; [exact E1 | exact E3].
Defined.

Lemma last_mark_wins_witness :
  Parse.position_quiet ParseDemo.quiet_calls /\
  fst (Parse.takeParserPosition
         (Parse.run
            (ParseDemo.calls
             ++ Parse.MarkParserPosition ParseDemo.marked false
             :: ParseDemo.quiet_calls)
            ParseDemo.state))
  = ParseDemo.marked.
Proof.
  split; [reflexivity |].
  exact (proj2 (proj2 (last_mark_wins unit nat nat ParseDemo.calls
                         ParseDemo.quiet_calls
                         ParseDemo.marked false ParseDemo.state eq_refl))).
Defined.

(** A store through the reference of [getScopeInfo()] changes the scope
    info and nothing else; the calls of [ParseDemo.calls] leave the delayed
    declaration lists and the top-level context as they were. *)
Example scope_info_through_the_reference :
  Parse.after (Parse.GetScopeInfo S) ParseDemo.state
  = Parse.getScopeInfo_store 2%nat ParseDemo.state /\
  Parse.ScopeInfo (Parse.run ParseDemo.calls ParseDemo.state) = 2%nat /\
  Parse.TopLevelCode (Parse.run ParseDemo.calls ParseDemo.state) = 0%nat /\
  Parse.DelayedDeclLists (Parse.run ParseDemo.calls ParseDemo.state) = [8192].
Proof. repeat split. Qed.

End MoreDemoFacts.
